(** * document_summarization.py: TF-IDF weighting, cosine ranking and greedy
      selection, as a shallow embedding.

    Conventions of the embedding.
    - Python [int] is [Z] (or [nat] where the value is a size used by [range]).
    - Python [float] / numpy [float64] values are idealised: finite values are
      real numbers computed exactly (no rounding, overflow or underflow), and
      the non-finite results of IEEE-754 division (inf, -inf, nan) are explicit
      constructors of [float64].
    - An exception is a value of [exn]; a function that can raise returns a
      [result].
    - [DocProcess] is imported from a module that is not part of this file's
      source; it is taken as a record of what its methods return, the counts
      and sizes being Python ints.
    - Printing and the cache files of [write_for_test] are left out: they
      influence no value the functions return. *)

From Stdlib Require Import Reals Lra Lia List ZArith String Bool Arith.
From Stdlib Require Import Permutation Sorted.
From Equations Require Import Equations.
Import ListNotations.

(** ** Python exceptions and the error monad *)

Inductive exn : Set :=
| ZeroDivisionError   (* int / 0 *)
| ValueError          (* math.log domain error, list.index miss, shape mismatch *)
| IndexError          (* subscript out of range *)
| KeyError.           (* dict lookup miss *)

Inductive result (A : Type) : Type :=
| Ok (a : A)
| Err (e : exn).
Arguments Ok {A} a.
Arguments Err {A} e.

Definition bind {A B : Type} (r : result A) (k : A -> result B) : result B :=
  match r with
  | Ok a => k a
  | Err e => Err e
  end.

Notation "x <- r ;; k" := (bind r (fun x => k))
  (at level 61, r at next level, right associativity).

(** A [for] loop whose body may raise: the first exception leaves the loop. *)
Fixpoint foldM {A S : Type} (body : S -> A -> result S) (l : list A) (s : S)
  : result S :=
  match l with
  | [] => Ok s
  | x :: l' => s' <- body s x ;; foldM body l' s'
  end.

(** [l[i]] for a non-negative index. *)
Definition getitem {A : Type} (l : list A) (i : nat) : result A :=
  match nth_error l i with
  | Some x => Ok x
  | None => Err IndexError
  end.

(** ** Idealised floating point *)

Local Open Scope R_scope.

Inductive float64 : Type :=
| Num (r : R)
| PInf
| NInf
| NaN.

Definition Reqb (x y : R) : bool := if Req_dec_T x y then true else false.
Definition Rltb (x y : R) : bool := if Rlt_dec x y then true else false.

(** [x / y] on two finite numpy scalars, [y] not a negative zero: a zero
    divisor gives nan or a signed infinity (with a warning), never an
    exception. *)
Definition np_div (x y : R) : float64 :=
  if Reqb y 0 then
    if Reqb x 0 then NaN else if Rltb 0 x then PInf else NInf
  else Num (x / y).

(** [np.cos]: nan for nan and for the infinities. *)
Definition np_cos (x : float64) : float64 :=
  match x with
  | Num r => Num (cos r)
  | _ => NaN
  end.

(** [x < y] and [x == y] on floats; every comparison with nan is False. *)
Definition float_lt (x y : float64) : bool :=
  match x, y with
  | NaN, _ | _, NaN => false
  | Num a, Num b => Rltb a b
  | NInf, Num _ | NInf, PInf | Num _, PInf => true
  | _, _ => false
  end.

Definition float_eq (x y : float64) : bool :=
  match x, y with
  | Num a, Num b => Reqb a b
  | PInf, PInf | NInf, NInf => true
  | _, _ => false
  end.

(** Python [int / int]: true division, raising on a zero divisor. *)
Definition py_div (a b : Z) : result R :=
  if (b =? 0)%Z then Err ZeroDivisionError else Ok (IZR a / IZR b).

(** [math.log]: raises ValueError outside its domain. *)
Definition math_log (x : R) : result R :=
  if Rltb 0 x then Ok (ln x) else Err ValueError.

(** ** Vectors: [ndarray.dot], [np.linalg.norm], [cos_similarity] *)

Fixpoint dot (u v : list R) : R :=
  match u, v with
  | x :: u', y :: v' => x * y + dot u' v'
  | _, _ => 0
  end.

(** [u.dot(v)] on 1-d arrays: the shapes must agree. *)
Definition ndarray_dot (u v : list R) : result R :=
  if (List.length u =? List.length v)%nat then Ok (dot u v) else Err ValueError.

(** [np.linalg.norm] of a 1-d array: [sqrt(x.dot(x))]. *)
Definition linalg_norm (u : list R) : R := sqrt (dot u u).

Definition cos_similarity (sentence1 sentence2 : list R) : result float64 :=
  sen1_pro_sen2 <- ndarray_dot sentence1 sentence2 ;;
  let amp_sen1 := linalg_norm sentence1 in
  let amp_sen2 := linalg_norm sentence2 in
  Ok (np_cos (np_div sen1_pro_sen2 (amp_sen1 * amp_sen2))).

(** ** Python containers used by the program *)

(** A [dict] in insertion order. *)
Definition dict (V : Type) : Type := list (string * V).

Definition dict_keys {V : Type} (d : dict V) : list string := map fst d.

Fixpoint dict_get {V : Type} (d : dict V) (k : string) : result V :=
  match d with
  | [] => Err KeyError
  | (k', v) :: d' => if String.eqb k' k then Ok v else dict_get d' k
  end.

Fixpoint dict_set {V : Type} (d : dict V) (k : string) (v : V) : dict V :=
  match d with
  | [] => [(k, v)]
  | (k', v') :: d' =>
      if String.eqb k' k then (k', v) :: d' else (k', v') :: dict_set d' k v
  end.

(** [l.index(w)]: position of the first occurrence. *)
Fixpoint list_index (w : string) (l : list string) : result nat :=
  match l with
  | [] => Err ValueError
  | x :: l' => if String.eqb x w then Ok 0%nat
               else i <- list_index w l' ;; Ok (S i)
  end.

(** [l[i] = x] for a non-negative index. *)
Fixpoint list_set {A : Type} (l : list A) (i : nat) (x : A) : result (list A) :=
  match l, i with
  | [], _ => Err IndexError
  | _ :: l', O => Ok (x :: l')
  | y :: l', S i' => l'' <- list_set l' i' x ;; Ok (y :: l'')
  end.

(** A 2-d array as the list of its rows. *)
Definition matrix : Type := list (list R).

Definition np_zeros (rows cols : nat) : matrix := repeat (repeat 0 cols) rows.

(** [m[i, j] = x] *)
Definition matrix_set (m : matrix) (i j : nat) (x : R) : result matrix :=
  row <- getitem m i ;;
  row' <- list_set row j x ;;
  list_set m i row'.

(** [m[i, j]], with 0 standing for a position outside the array. *)
Definition matrix_get (m : matrix) (i j : nat) : R := nth j (nth i m []) 0.

(** ** [tf] *)

Definition tf {A : Type} (sentences : list A) : result (dict R * dict Z) :=
  let count_word : dict Z := [] in
  let tf_word : dict R := [] in
  let sum_count_words := 0%Z in
  sum_count_words <-
    foldM (fun acc count_w => c <- dict_get count_word count_w ;; Ok (acc + c)%Z)
          (dict_keys count_word) sum_count_words ;;
  tf_word <-
    foldM (fun tf_word w =>
             c <- dict_get count_word w ;;
             q <- py_div c sum_count_words ;;
             Ok (dict_set tf_word w q))
          (dict_keys count_word) tf_word ;;
  Ok (tf_word, count_word).

(** ** The corpus collaborator *)

Record DocProcess : Type := {
  word_list : list string;
  doc_size : nat;
  sen_size : nat -> nat;
  sen_size_total : nat;
  word_size : nat -> Z;
  word_size_total : Z;
  count_in_doc : string -> nat -> Z;
  count_doc_containing_word : string -> Z;
  count_total_in_doc : string -> Z;
  abstract : nat -> string
}.

(** ** [tf_idf] *)

Section TfIdf.
Variable data : DocProcess.

(** Body of [for word in data.word_list] (lines 84-102). *)
Definition word_body (doc_idx : nat) (wrd_sz_doc : Z) (general_sen_idx : nat)
    (s_w_matrix : matrix) (word : string) : result matrix :=
  let count := count_in_doc data word doc_idx in
  if (count =? 0)%Z then Ok s_w_matrix
  else if (count >? 0)%Z then
    tf <- py_div count wrd_sz_doc ;;
    q <- py_div (Z.of_nat (doc_size data))
                (count_doc_containing_word data word + 1) ;;
    idf <- math_log q ;;
    wrd_idx <- list_index word (word_list data) ;;
    matrix_set s_w_matrix general_sen_idx wrd_idx (tf * idf)
  else if (count =? -1)%Z then Ok s_w_matrix   (* print *)
  else Ok s_w_matrix.                          (* print *)

(** Body of [for sen_idx in range(data.sen_size(doc_idx))]. *)
Definition sen_body (doc_idx : nat) (wrd_sz_doc : Z) (st : matrix * nat)
    (sen_idx : nat) : result (matrix * nat) :=
  let '(s_w_matrix, general_sen_idx) := st in
  s_w_matrix <- foldM (word_body doc_idx wrd_sz_doc general_sen_idx)
                      (word_list data) s_w_matrix ;;
  Ok (s_w_matrix, S general_sen_idx).

(** Body of [for doc_idx in range(data.doc_size())]. *)
Definition doc_body (st : matrix * nat) (doc_idx : nat)
    : result (matrix * nat) :=
  let wrd_sz_doc := word_size data doc_idx in
  foldM (sen_body doc_idx wrd_sz_doc) (seq 0 (sen_size data doc_idx)) st.

(** Body of the second [for word in data.word_list] (lines 109-112). *)
Definition long_sen_body (word_size_total : Z) (long_sen_vector : list R)
    (word : string) : result (list R) :=
  tf <- py_div (count_total_in_doc data word) word_size_total ;;
  q <- py_div 1 (1 + 1) ;;
  idf <- math_log q ;;
  Ok (long_sen_vector ++ [tf * idf]).

Definition tf_idf : result (matrix * list R) :=
  let s_w_matrix :=
    np_zeros (sen_size_total data) (List.length (word_list data)) in
  let general_sen_idx := 0%nat in
  st <- foldM doc_body (seq 0 (doc_size data))
              (s_w_matrix, general_sen_idx) ;;
  let s_w_matrix := fst st in
  let long_sen_vector := [] in
  let word_size_total := word_size_total data in
  long_sen_vector <- foldM (long_sen_body word_size_total) (word_list data)
                           long_sen_vector ;;
  Ok (s_w_matrix, long_sen_vector).
End TfIdf.

(** ** Ranking: lines 153-158 of [summarize] *)

(** [a < b] on [(cosine, r)] tuples: the first components decide unless they
    compare equal. *)
Definition tuple_lt (a b : float64 * nat) : bool :=
  if float_eq (fst a) (fst b) then (snd a <? snd b)%nat
  else float_lt (fst a) (fst b).

(** [list.sort] as a stable insertion sort that only asks [<], each element
    going behind the ones it is not smaller than. Where [<] orders the keys
    totally this is the order any stable sort gives. *)
Fixpoint insert_sorted (x : float64 * nat) (l : list (float64 * nat))
  : list (float64 * nat) :=
  match l with
  | [] => [x]
  | y :: l' => if tuple_lt x y then x :: l else y :: insert_sorted x l'
  end.

Definition list_sort (l : list (float64 * nat)) : list (float64 * nat) :=
  fold_left (fun acc x => insert_sorted x acc) l [].

(** [l.sort(reverse=True)]: reverse, sort ascending, reverse. *)
Definition list_sort_reverse (l : list (float64 * nat)) : list (float64 * nat) :=
  rev (list_sort (rev l)).

Definition sim_body (s_w_matrix : matrix) (long_sen_vector : list R)
    (sim_lst : list (float64 * nat)) (r : nat) : result (list (float64 * nat)) :=
  row <- getitem s_w_matrix r ;;
  cosine <- cos_similarity row long_sen_vector ;;
  Ok (sim_lst ++ [(cosine, r)]).

Definition rank (s_w_matrix : matrix) (long_sen_vector : list R)
  : result (list (float64 * nat)) :=
  sim_lst <- foldM (sim_body s_w_matrix long_sen_vector)
                   (seq 0 (List.length s_w_matrix)) [] ;;
  Ok (list_sort_reverse sim_lst).

(** Matching on a value while keeping the equation that names it. *)
Definition inspect {A : Type} (x : A) : {y : A | x = y} := exist _ x eq_refl.

(** ** Selection: lines 159-178 of [summarize] *)

Record sel_state : Type := {
  base_rank : nat;
  current_rank : nat;
  summary : list string;
  sum_size : nat
}.

(** What one evaluation of the loop does: leave it, or go round again. *)
Inductive flow : Type :=
| Stop (st : sel_state)
| Next (st : sel_state).

Section Selection.
Variable data : DocProcess.
Variable s_w_matrix : matrix.
Variable sim_lst : list (float64 * nat).

Definition select_step (st : sel_state) : result flow :=
  if (current_rank st =? List.length sim_lst)%nat then Ok (Stop st)
  else if (665 <=? sum_size st)%nat then Ok (Stop st)
  else
    cur <- getitem sim_lst (current_rank st) ;;
    row_cur <- getitem s_w_matrix (snd cur) ;;
    bas <- getitem sim_lst (base_rank st) ;;
    row_bas <- getitem s_w_matrix (snd bas) ;;
    sim <- cos_similarity row_cur row_bas ;;
    if float_lt sim (Num 0.539) then
      let text := abstract data (snd cur) in
      Ok (Next {| base_rank := current_rank st;
                  current_rank := current_rank st + 1;
                  summary := summary st ++ [text];
                  sum_size := sum_size st + String.length text |})
    else
      Ok (Next {| base_rank := base_rank st;
                  current_rank := current_rank st + 1;
                  summary := summary st;
                  sum_size := sum_size st |}).

Equations? select_loop (st : sel_state) : result sel_state
  by wf (List.length sim_lst - current_rank st)%nat lt :=
  select_loop st with inspect (select_step st) => {
    | exist _ (Err e) _ => Err e
    | exist _ (Ok (Stop st')) _ => Ok st'
    | exist _ (Ok (Next st')) H => select_loop st' }.
Proof.
  unfold select_step in H.
  destruct (Nat.eqb_spec (current_rank st) (List.length sim_lst)); [discriminate|].
  destruct (665 <=? sum_size st)%nat; [discriminate|].
  unfold getitem in H.
  destruct (nth_error sim_lst (current_rank st)) as [cur|] eqn:Hcur;
    [|discriminate].
  assert (current_rank st < List.length sim_lst)%nat
    by (apply nth_error_Some; congruence).
  cbn [bind] in H.
  repeat match type of H with
         | context [bind ?x _] => destruct x; cbn [bind] in H
         | context [match ?x with _ => _ end] => destruct x; cbn [bind] in H
         | context [if ?b then _ else _] => destruct b
         end; try discriminate.
  all: injection H as <-; cbn; lia.
Qed.
End Selection.

Definition summarize (data : DocProcess) : result (list string) :=
  st <- tf_idf data ;;
  let '(s_w_matrix, long_sen_vector) := st in
  sim_lst <- rank s_w_matrix long_sen_vector ;;
  let base_rank := 0%nat in
  let current_rank := 1%nat in
  top <- getitem sim_lst base_rank ;;
  let summary := [abstract data (snd top)] in
  let sum_size := String.length (last summary EmptyString) in
  st <- select_loop data s_w_matrix sim_lst
          {| base_rank := base_rank; current_rank := current_rank;
             summary := summary; sum_size := sum_size |} ;;
  let '(Build_sel_state _ _ summary _) := st in
  Ok summary.

(** ** The cache files: [write_for_test], [read_for_test] *)

Inductive os_error : Set := FileNotFoundError.

(** The files of the working directory, by name. *)
Definition files : Type := string -> option string.

(** Creating or overwriting a file. *)
Definition file_write (fs : files) (name text : string) : files :=
  fun n => if String.eqb n name then Some text else fs n.

(** [open(name, 'r')] followed by [read()] and [close()]. *)
Definition file_read (fs : files) (name : string) : os_error + string :=
  match fs name with
  | Some text => inr text
  | None => inl FileNotFoundError
  end.

Section Cache.
(** The text [tofile(name, ' ', '%.5f')] writes for a 2-d and a 1-d array. *)
Variable matrix_text : matrix -> string.
Variable vector_text : list R -> string.

Definition write_for_test (m : matrix) (v : list R) (fs : files) : files :=
  let fs := file_write fs "sentence-to-word-matrix.cache" (matrix_text m) in
  file_write fs "long-sentence-vector.cache" (vector_text v).
End Cache.

(** Both results are [np.array] of the text read, a 0-d array holding that
    string. *)
Definition read_for_test (fs : files) : os_error + (string * string) :=
  match file_read fs "sentence-to-word-matrix.cache" with
  | inl e => inl e
  | inr matrix =>
      match file_read fs "long-sen-vector.cache" with
      | inl e => inl e
      | inr vector => inr (matrix, vector)
      end
  end.

(** * Vocabulary of the statements *)

Definition has_shape (m : matrix) (rows cols : nat) : Prop :=
  List.length m = rows /\
  forall i, (i < rows)%nat -> List.length (nth i m []) = cols.

Section TfIdfVocabulary.
Variable data : DocProcess.

(** Global index of the first sentence of document [d]: documents are laid
    out one after the other, [sen_size] rows each. *)
Fixpoint sen_offset (d : nat) : nat :=
  match d with
  | O => O
  | S d' => (sen_offset d' + sen_size data d')%nat
  end.

(** The product line 98 stores for [word] in document [doc_idx]. *)
Definition weight (doc_idx : nat) (word : string) : R :=
  IZR (count_in_doc data word doc_idx) / IZR (word_size data doc_idx)
  * ln (IZR (Z.of_nat (doc_size data))
        / IZR (count_doc_containing_word data word + 1)).

(** Processing [w] for document [d] stores into column [j]. *)
Definition writes (d j : nat) (w : string) : bool :=
  (count_in_doc data w d >? 0)%Z
  && match list_index w (word_list data) with
     | Ok k => (k =? j)%nat
     | Err _ => false
     end.

Definition touched (d : nat) (ws : list string) (j : nat) : bool :=
  existsb (writes d j) ws.

(** Lines 92-95 are defined for every word that occurs in document [d]. *)
Definition doc_computable (d : nat) : Prop :=
  forall w, In w (word_list data) -> (0 < count_in_doc data w d)%Z ->
            word_size data d <> 0%Z
            /\ (0 < count_doc_containing_word data w + 1)%Z.

(** A corpus on which [tf_idf] raises nothing. *)
Definition corpus_ok : Prop :=
  (forall d, (d < doc_size data)%nat -> (0 < sen_size data d)%nat ->
             doc_computable d)
  /\ (sen_offset (doc_size data) <= sen_size_total data)%nat
  /\ (word_list data = [] \/ word_size_total data <> 0%Z).

(** The centroid entry of [word]. *)
Definition long_sen_weight (word : string) : R :=
  IZR (count_total_in_doc data word) / IZR (word_size_total data) * ln (1 / 2).
End TfIdfVocabulary.

(** The score of a tuple whose first component is a number. *)
Definition score (p : float64 * nat) : R :=
  match fst p with
  | Num x => x
  | _ => 0
  end.

Definition is_num (p : float64 * nat) : Prop := exists x, fst p = Num x.

(** Tuple order on numeric scores: by score, then by index. *)
Definition tuple_le (a b : float64 * nat) : Prop :=
  score a < score b \/ (score a = score b /\ (snd a <= snd b)%nat).

(** [p] pairs a row index with that row's similarity to [c]. *)
Definition scored_by (m : matrix) (c : list R) (p : float64 * nat) : Prop :=
  exists row, getitem m (snd p) = Ok row /\ cos_similarity row c = Ok (fst p).

(** State of the selection loop that keeps its subscripts in range. *)
Definition sel_inv (sim_lst : list (float64 * nat)) (st : sel_state) : Prop :=
  (base_rank st < List.length sim_lst)%nat
  /\ (current_rank st <= List.length sim_lst)%nat.


(** ** Corpora used as concrete inputs *)

(** Three one-sentence documents over the vocabulary cat, dog, mat:
    "cat sat mat", "dog sat mat", "cat dog". *)
Definition three_docs : DocProcess := {|
  word_list := ["cat"; "dog"; "mat"]%string;
  doc_size := 3;
  sen_size := fun _ => 1%nat;
  sen_size_total := 3;
  word_size := fun d => match d with 2%nat => 2%Z | _ => 3%Z end;
  word_size_total := 8%Z;
  count_in_doc := fun w d =>
    match d with
    | 0%nat => if (String.eqb w "cat" || String.eqb w "mat")%bool then 1%Z else 0%Z
    | 1%nat => if (String.eqb w "dog" || String.eqb w "mat")%bool then 1%Z else 0%Z
    | 2%nat => if (String.eqb w "cat" || String.eqb w "dog")%bool then 1%Z else 0%Z
    | _ => 0%Z
    end;
  count_doc_containing_word := fun _ => 2%Z;
  count_total_in_doc := fun _ => 2%Z;
  abstract := fun i =>
    match i with
    | 0%nat => "cat sat mat"
    | 1%nat => "dog sat mat"
    | _ => "cat dog"
    end%string
|}.

(** No document at all. *)
Definition no_docs : DocProcess := {|
  word_list := [];
  doc_size := 0;
  sen_size := fun _ => 0%nat;
  sen_size_total := 0;
  word_size := fun _ => 0%Z;
  word_size_total := 0%Z;
  count_in_doc := fun _ _ => 0%Z;
  count_doc_containing_word := fun _ => 0%Z;
  count_total_in_doc := fun _ => 0%Z;
  abstract := fun _ => EmptyString
|}.

(** One one-sentence document whose word total is reported as 0 while the
    vocabulary word "cat" is counted once in it. *)
Definition zero_total_doc : DocProcess := {|
  word_list := ["cat"]%string;
  doc_size := 1;
  sen_size := fun _ => 1%nat;
  sen_size_total := 1;
  word_size := fun _ => 0%Z;
  word_size_total := 1%Z;
  count_in_doc := fun _ _ => 1%Z;
  count_doc_containing_word := fun _ => 1%Z;
  count_total_in_doc := fun _ => 1%Z;
  abstract := fun _ => "cat"%string
|}.

(** Three documents over cat, dog, mat, the first with two sentences: "cat"
    is in all three documents, "dog" in one, "mat" in two. *)
Definition skewed_docs : DocProcess := {|
  word_list := ["cat"; "dog"; "mat"]%string;
  doc_size := 3;
  sen_size := fun d => match d with 0%nat => 2%nat | _ => 1%nat end;
  sen_size_total := 4;
  word_size := fun _ => 2%Z;
  word_size_total := 6%Z;
  count_in_doc := fun w d =>
    match d with
    | 0%nat => if (String.eqb w "cat" || String.eqb w "dog")%bool then 1%Z else 0%Z
    | 1%nat => if (String.eqb w "cat" || String.eqb w "mat")%bool then 1%Z else 0%Z
    | 2%nat => if (String.eqb w "cat" || String.eqb w "mat")%bool then 1%Z else 0%Z
    | _ => 0%Z
    end;
  count_doc_containing_word := fun w =>
    if String.eqb w "cat" then 3%Z else if String.eqb w "dog" then 1%Z else 2%Z;
  count_total_in_doc := fun w =>
    if String.eqb w "cat" then 3%Z else if String.eqb w "dog" then 1%Z else 2%Z;
  abstract := fun i =>
    match i with
    | 0%nat => "cat"
    | 1%nat => "dog"
    | 2%nat => "cat mat"
    | _ => "mat cat"
    end%string
|}.

(** One one-sentence document whose vocabulary lists "cat" twice, with one
    matrix row more than there are sentences. *)
Definition dup_docs : DocProcess := {|
  word_list := ["cat"; "cat"]%string;
  doc_size := 1;
  sen_size := fun _ => 1%nat;
  sen_size_total := 2;
  word_size := fun _ => 1%Z;
  word_size_total := 1%Z;
  count_in_doc := fun _ _ => 1%Z;
  count_doc_containing_word := fun _ => 1%Z;
  count_total_in_doc := fun _ => 1%Z;
  abstract := fun _ => "cat"%string
|}.

(** One one-sentence document without any vocabulary word, the corpus-wide
    word total being 0. *)
Definition wordless_doc : DocProcess := {|
  word_list := ["cat"]%string;
  doc_size := 1;
  sen_size := fun _ => 1%nat;
  sen_size_total := 1;
  word_size := fun _ => 0%Z;
  word_size_total := 0%Z;
  count_in_doc := fun _ _ => 0%Z;
  count_doc_containing_word := fun _ => 0%Z;
  count_total_in_doc := fun _ => 0%Z;
  abstract := fun _ => EmptyString
|}.

(** * Properties *)

(** ** Comparisons on reals *)

Lemma Reqb_refl (x : R) : Reqb x x = true.
Proof. unfold Reqb. destruct (Req_dec_T x x); [reflexivity | congruence]. Qed.

Lemma Reqb_neq (x y : R) : x <> y -> Reqb x y = false.
Proof. unfold Reqb. destruct (Req_dec_T x y); [contradiction | reflexivity]. Qed.

Lemma Reqb_eq (x y : R) : Reqb x y = true -> x = y.
Proof. unfold Reqb. destruct (Req_dec_T x y); [trivial | intros; discriminate]. Qed.

Lemma Rltb_lt (x y : R) : x < y -> Rltb x y = true.
Proof. unfold Rltb. destruct (Rlt_dec x y); [reflexivity | contradiction]. Qed.

Lemma Rltb_nlt (x y : R) : ~ x < y -> Rltb x y = false.
Proof. unfold Rltb. destruct (Rlt_dec x y); [contradiction | reflexivity]. Qed.

Lemma Rltb_true_iff (x y : R) : Rltb x y = true <-> x < y.
Proof.
  unfold Rltb. destruct (Rlt_dec x y); split; intros; trivial; try discriminate;
    contradiction.
Qed.

(** ** The cosine of one radian *)

Lemma cos_1_lower : 539 / 1000 < cos 1.
Proof.
  destruct (pre_cos_bound 1 1) as [Hlo _]; [lra | lra |].
  unfold cos_approx, cos_term in Hlo. simpl in Hlo. lra.
Qed.

Lemma cos_1_upper : cos 1 < 11 / 20.
Proof.
  destruct (pre_cos_bound 1 0) as [_ Hup]; [lra | lra |].
  unfold cos_approx, cos_term in Hup. simpl in Hup. lra.
Qed.

(** On [-1, 1] the cosine stays between [cos 1] and 1. *)
Lemma cos_on_unit_interval (x : R) : -1 <= x <= 1 -> cos 1 <= cos x <= 1.
Proof.
  intros [Hlo Hhi]. split; [| apply COS_bound].
  assert (Hpi : 1 < PI) by (pose proof PI2_1; lra).
  assert (Habs : cos x = cos (Rabs x)).
  { unfold Rabs. destruct (Rcase_abs x); [rewrite cos_neg|]; reflexivity. }
  rewrite Habs.
  assert (H0 : 0 <= Rabs x) by apply Rabs_pos.
  assert (H1 : Rabs x <= 1) by (apply Rabs_le; lra).
  destruct (Req_dec (Rabs x) 1) as [->|Hne]; [lra|].
  left. apply cos_decreasing_1; lra.
Qed.

(** ** Dot product and norm *)

Lemma dot_self_nonneg (u : list R) : 0 <= dot u u.
Proof. induction u as [|x u IH]; simpl; [lra | nra]. Qed.

Lemma dot_zero_l (u v : list R) : dot u u = 0 -> dot u v = 0.
Proof.
  revert v. induction u as [|x u IH]; intros [|y v]; simpl; trivial.
  intros H. pose proof (dot_self_nonneg u).
  assert (x = 0) by nra. assert (dot u u = 0) by nra.
  subst x. rewrite IH by assumption. lra.
Qed.

Lemma dot_comm (u v : list R) : dot u v = dot v u.
Proof.
  revert v. induction u as [|x u IH]; intros [|y v]; simpl; trivial.
  rewrite IH. lra.
Qed.

Lemma linalg_norm_nonneg (u : list R) : 0 <= linalg_norm u.
Proof. apply sqrt_pos. Qed.

Lemma linalg_norm_zero (u : list R) : linalg_norm u = 0 <-> dot u u = 0.
Proof.
  unfold linalg_norm. split.
  - apply sqrt_eq_0, dot_self_nonneg.
  - intros ->. apply sqrt_0.
Qed.

(** Cauchy-Schwarz for [dot]. *)
Lemma dot_cauchy_schwarz (u v : list R) :
  dot u v * dot u v <= dot u u * dot v v.
Proof.
  revert v. induction u as [|x u IH]; intros [|y v]; simpl; try lra.
  - specialize (IH v).
    pose proof (dot_self_nonneg u) as HA. pose proof (dot_self_nonneg v) as HB.
    set (a := dot u v) in *. set (A := dot u u) in *. set (B := dot v v) in *.
    assert (Hmix : 2 * (x * y * a) <= x * x * B + A * (y * y)).
    { destruct (Req_dec A 0) as [HA0|HA0].
      - assert (a = 0) by nra. subst a. rewrite H, HA0. nra.
      - assert (0 < A) by lra.
        assert (0 <= A * (x * x * B + A * (y * y) - 2 * (x * y * a))).
        { pose proof (Rle_0_sqr (x * a - A * y)) as Hsq. unfold Rsqr in Hsq.
          nra. }
        nra. }
    nra.
Qed.

Lemma cosine_ratio_bounds (u v : list R) :
  linalg_norm u <> 0 -> linalg_norm v <> 0 ->
  -1 <= dot u v / (linalg_norm u * linalg_norm v) <= 1.
Proof.
  intros Hu Hv.
  pose proof (linalg_norm_nonneg u) as Hu0.
  pose proof (linalg_norm_nonneg v) as Hv0.
  assert (Hpos : 0 < linalg_norm u * linalg_norm v) by nra.
  assert (Hsq : (linalg_norm u * linalg_norm v) * (linalg_norm u * linalg_norm v)
                = dot u u * dot v v).
  { unfold linalg_norm.
    pose proof (sqrt_sqrt _ (dot_self_nonneg u)).
    pose proof (sqrt_sqrt _ (dot_self_nonneg v)). nra. }
  pose proof (dot_cauchy_schwarz u v) as Hcs.
  set (n := linalg_norm u * linalg_norm v) in *. set (d := dot u v) in *.
  assert (Hd : - n <= d <= n) by nra.
  split.
  - apply Rmult_le_reg_r with n; [assumption|].
    unfold Rdiv. rewrite Rmult_assoc, Rinv_l by lra. lra.
  - apply Rmult_le_reg_r with n; [assumption|].
    unfold Rdiv. rewrite Rmult_assoc, Rinv_l by lra. lra.
Qed.

(** ** [cos_similarity] *)

Lemma ndarray_dot_same_length (u v : list R) :
  List.length u = List.length v -> ndarray_dot u v = Ok (dot u v).
Proof. intros H. unfold ndarray_dot. rewrite H, Nat.eqb_refl. reflexivity. Qed.

(** With both norms nonzero the function evaluates to the cosine OF the
    normalised dot product. *)
Lemma cos_similarity_nonzero (u v : list R) :
  List.length u = List.length v ->
  linalg_norm u <> 0 -> linalg_norm v <> 0 ->
  cos_similarity u v
  = Ok (Num (cos (dot u v / (linalg_norm u * linalg_norm v)))).
Proof.
  intros Hlen Hu Hv. unfold cos_similarity.
  rewrite ndarray_dot_same_length by assumption. cbn [bind].
  unfold np_div. rewrite Reqb_neq; [reflexivity|].
  intros H. apply Rmult_integral in H. tauto.
Qed.

Lemma cos_similarity_zero_norm (u v : list R) :
  List.length u = List.length v ->
  linalg_norm u = 0 \/ linalg_norm v = 0 ->
  cos_similarity u v = Ok NaN.
Proof.
  intros Hlen Hz. unfold cos_similarity.
  rewrite ndarray_dot_same_length by assumption. cbn [bind].
  assert (Hd : dot u v = 0).
  { destruct Hz as [Hz|Hz]; apply linalg_norm_zero in Hz.
    - apply dot_zero_l; assumption.
    - rewrite dot_comm. apply dot_zero_l; assumption. }
  assert (Hn : linalg_norm u * linalg_norm v = 0) by (destruct Hz as [-> | ->]; lra).
  rewrite Hd, Hn. unfold np_div. rewrite !Reqb_refl. reflexivity.
Qed.

(** The value is a number or nan, never an infinity, and a number lies in
    [[cos 1, 1]]. *)
Lemma cos_similarity_value (u v : list R) (x : float64) :
  cos_similarity u v = Ok x ->
  x = NaN \/ exists r, x = Num r /\ cos 1 <= r <= 1.
Proof.
  unfold cos_similarity, ndarray_dot.
  destruct (Nat.eqb_spec (List.length u) (List.length v)) as [Hlen|]; [|discriminate].
  cbn [bind]. intros H. injection H as <-.
  destruct (Req_dec (linalg_norm u) 0) as [Hu|Hu];
    [|destruct (Req_dec (linalg_norm v) 0) as [Hv|Hv]].
  - left. pose proof (cos_similarity_zero_norm u v Hlen (or_introl Hu)) as E.
    unfold cos_similarity in E. rewrite ndarray_dot_same_length in E by assumption.
    cbn [bind] in E. congruence.
  - left. pose proof (cos_similarity_zero_norm u v Hlen (or_intror Hv)) as E.
    unfold cos_similarity in E. rewrite ndarray_dot_same_length in E by assumption.
    cbn [bind] in E. congruence.
  - right. pose proof (cos_similarity_nonzero u v Hlen Hu Hv) as E.
    unfold cos_similarity in E. rewrite ndarray_dot_same_length in E by assumption.
    cbn [bind] in E. injection E as ->.
    eexists; split; [reflexivity|].
    apply cos_on_unit_interval, cosine_ratio_bounds; assumption.
Qed.

(** ** The error monad, loops and subscripts *)

Lemma bind_ok {A B : Type} (r : result A) (k : A -> result B) (b : B) :
  bind r k = Ok b -> exists a, r = Ok a /\ k a = Ok b.
Proof. destruct r as [a|e]; simpl; [eauto | discriminate]. Qed.

Lemma foldM_app {A S : Type} (f : S -> A -> result S) (l1 l2 : list A) (s : S) :
  foldM f (l1 ++ l2) s = (s' <- foldM f l1 s ;; foldM f l2 s').
Proof.
  revert s. induction l1 as [|x l1 IH]; intros s; simpl; [reflexivity|].
  destruct (f s x); simpl; auto.
Qed.

(** A loop over bodies that change nothing changes nothing. *)
Lemma foldM_id {A S : Type} (f : S -> A -> result S) (l : list A) (s : S) :
  (forall x, In x l -> f s x = Ok s) -> foldM f l s = Ok s.
Proof.
  induction l as [|x l IH]; intros H; simpl; [reflexivity|].
  rewrite H by (left; reflexivity). simpl. apply IH.
  intros y Hy. apply H. right. assumption.
Qed.

Lemma getitem_ok {A : Type} (l : list A) (i : nat) (x : A) :
  getitem l i = Ok x -> (i < List.length l)%nat /\ forall d, nth i l d = x.
Proof.
  unfold getitem. destruct (nth_error l i) as [y|] eqn:E; [|discriminate].
  intros H. injection H as <-. split.
  - apply nth_error_Some. congruence.
  - intros d. apply nth_error_nth. assumption.
Qed.

Lemma getitem_lt {A : Type} (l : list A) (i : nat) (d : A) :
  (i < List.length l)%nat -> getitem l i = Ok (nth i l d).
Proof.
  intros H. unfold getitem.
  rewrite (nth_error_nth' l d H). reflexivity.
Qed.

Lemma getitem_nil {A : Type} (i : nat) : getitem (@nil A) i = Err IndexError.
Proof. unfold getitem. destruct i; reflexivity. Qed.

Lemma list_set_ok {A : Type} (l : list A) (i : nat) (x : A) (l' : list A) :
  list_set l i x = Ok l' ->
  (i < List.length l)%nat /\ List.length l' = List.length l /\
  forall j d, nth j l' d = if (j =? i)%nat then x else nth j l d.
Proof.
  revert i l'. induction l as [|y l IH]; intros [|i] l' H; simpl in H;
    try discriminate.
  - injection H as <-. simpl. repeat split; [lia|].
    intros [|j] d; reflexivity.
  - apply bind_ok in H as (l'' & H1 & H2). injection H2 as <-.
    apply IH in H1 as (Hi & Hlen & Hnth). simpl. repeat split; try lia.
    intros [|j] d; simpl; [reflexivity | apply Hnth].
Qed.

Lemma list_set_lt {A : Type} (l : list A) (i : nat) (x : A) :
  (i < List.length l)%nat -> exists l', list_set l i x = Ok l'.
Proof.
  revert i. induction l as [|y l IH]; intros [|i] H; simpl in *; try lia.
  - eauto.
  - destruct (IH i) as [l' ->]; [lia|]. simpl. eauto.
Qed.

Lemma list_set_ge {A : Type} (l : list A) (i : nat) (x : A) :
  (List.length l <= i)%nat -> list_set l i x = Err IndexError.
Proof.
  revert i. induction l as [|y l IH]; intros [|i] H; simpl in *;
    try reflexivity; try lia.
  rewrite IH by lia. reflexivity.
Qed.

(** ** Matrices *)

Lemma np_zeros_shape (rows cols : nat) : has_shape (np_zeros rows cols) rows cols.
Proof.
  unfold has_shape, np_zeros. split; [apply repeat_length|].
  intros i Hi. rewrite nth_repeat_lt by assumption. apply repeat_length.
Qed.

Lemma np_zeros_get (rows cols i j : nat) : matrix_get (np_zeros rows cols) i j = 0.
Proof.
  unfold matrix_get, np_zeros.
  destruct (Nat.lt_ge_cases i rows) as [Hi|Hi].
  - rewrite nth_repeat_lt by assumption. apply nth_repeat.
  - assert (E : nth i (repeat (repeat 0 cols) rows) [] = [])
      by (apply nth_overflow; rewrite repeat_length; assumption).
    rewrite E. destruct j; reflexivity.
Qed.

Lemma matrix_set_ok (m m' : matrix) (rows cols i j : nat) (x : R) :
  has_shape m rows cols ->
  matrix_set m i j x = Ok m' ->
  has_shape m' rows cols /\ (i < rows)%nat /\ (j < cols)%nat /\
  forall i' j', matrix_get m' i' j'
                = if ((i' =? i) && (j' =? j))%nat then x else matrix_get m i' j'.
Proof.
  intros [Hrows Hcols] H. unfold matrix_set in H.
  apply bind_ok in H as (row & Hrow & H).
  apply bind_ok in H as (row' & Hrow' & H).
  apply getitem_ok in Hrow as (Hi & Hrow).
  apply list_set_ok in Hrow' as (Hj & Hlen' & Hnth').
  apply list_set_ok in H as (_ & Hlen & Hnth).
  specialize (Hrow []). subst row.
  rewrite Hrows in Hi. rewrite (Hcols i Hi) in Hj, Hlen'.
  repeat split; trivial.
  - congruence.
  - intros k Hk. rewrite Hnth.
    destruct (Nat.eqb_spec k i); [assumption | apply Hcols; assumption].
  - intros i' j'. unfold matrix_get. rewrite Hnth.
    destruct (Nat.eqb_spec i' i) as [->|]; simpl; [|reflexivity].
    apply Hnth'.
Qed.

Lemma matrix_set_lt (m : matrix) (rows cols i j : nat) (x : R) :
  has_shape m rows cols -> (i < rows)%nat -> (j < cols)%nat ->
  exists m', matrix_set m i j x = Ok m'.
Proof.
  intros [Hrows Hcols] Hi Hj. unfold matrix_set.
  rewrite (getitem_lt m i []) by lia. cbn [bind].
  destruct (list_set_lt (nth i m []) j x) as [row' ->];
    [rewrite Hcols; assumption|].
  cbn [bind]. apply list_set_lt. lia.
Qed.

(** ** [list.index] *)

Lemma list_index_ok (w : string) (l : list string) (i : nat) :
  list_index w l = Ok i -> nth_error l i = Some w.
Proof.
  revert i. induction l as [|x l IH]; intros i H; simpl in H; [discriminate|].
  destruct (String.eqb_spec x w) as [->|Hne].
  - injection H as <-. reflexivity.
  - apply bind_ok in H as (k & Hk & H). injection H as <-. simpl. auto.
Qed.

Lemma list_index_in (w : string) (l : list string) :
  In w l -> exists i, list_index w l = Ok i.
Proof.
  induction l as [|x l IH]; intros H; simpl in *; [contradiction|].
  destruct (String.eqb_spec x w) as [->|Hne]; [eauto|].
  destruct H as [H|H]; [contradiction|].
  destruct (IH H) as [i ->]. simpl. eauto.
Qed.

Lemma list_index_nodup (l : list string) (i : nat) (w : string) :
  NoDup l -> nth_error l i = Some w -> list_index w l = Ok i.
Proof.
  intros Hnd. revert i. induction Hnd as [|x l Hx Hnd IH]; intros i H.
  - destruct i; discriminate.
  - simpl. destruct i as [|i]; simpl in H.
    + injection H as ->. rewrite String.eqb_refl. reflexivity.
    + destruct (String.eqb_spec x w) as [->|Hne].
      * apply nth_error_In in H. contradiction.
      * rewrite (IH _ H). reflexivity.
Qed.

(** ** [tf_idf]: the matrix loops *)

Section TfIdfLoops.
Variable data : DocProcess.
Variables rows cols : nat.

Lemma word_body_skip (d : nat) (wsz : Z) (g : nat) (m : matrix) (w : string) :
  (count_in_doc data w d <= 0)%Z -> word_body data d wsz g m w = Ok m.
Proof.
  intros H. unfold word_body.
  destruct (Z.eqb_spec (count_in_doc data w d) 0); [reflexivity|].
  destruct (Z.gtb_spec (count_in_doc data w d) 0); [lia|].
  destruct (count_in_doc data w d =? -1)%Z; reflexivity.
Qed.

Lemma math_log_ok (x y : R) : math_log x = Ok y -> 0 < x /\ y = ln x.
Proof.
  unfold math_log. destruct (Rltb 0 x) eqn:E; [|discriminate].
  intros H. injection H as <-. apply Rltb_true_iff in E. auto.
Qed.

Lemma py_div_ok (a b : Z) (q : R) :
  py_div a b = Ok q -> b <> 0%Z /\ q = IZR a / IZR b.
Proof.
  unfold py_div. destruct (Z.eqb_spec b 0); [discriminate|].
  intros H. injection H as <-. auto.
Qed.

Lemma py_div_zero (a : Z) : py_div a 0 = Err ZeroDivisionError.
Proof. reflexivity. Qed.

Lemma py_div_nonzero (a b : Z) : b <> 0%Z -> py_div a b = Ok (IZR a / IZR b).
Proof. intros H. unfold py_div. destruct (Z.eqb_spec b 0); tauto. Qed.

(** What a store at line 98 presupposes and does. *)
Lemma word_body_store (d g : nat) (m m' : matrix) (w : string) :
  has_shape m rows cols ->
  (0 < count_in_doc data w d)%Z ->
  word_body data d (word_size data d) g m w = Ok m' ->
  word_size data d <> 0%Z
  /\ 0 < IZR (Z.of_nat (doc_size data))
         / IZR (count_doc_containing_word data w + 1)
  /\ exists j, list_index w (word_list data) = Ok j
     /\ (g < rows)%nat /\ (j < cols)%nat /\ has_shape m' rows cols
     /\ forall i' j', matrix_get m' i' j'
                      = if ((i' =? g) && (j' =? j))%nat then weight data d w
                        else matrix_get m i' j'.
Proof.
  intros Hshape Hpos H. unfold word_body in H.
  destruct (Z.eqb_spec (count_in_doc data w d) 0); [lia|].
  destruct (Z.gtb_spec (count_in_doc data w d) 0); [|lia].
  apply bind_ok in H as (tf_ & Htf & H).
  apply bind_ok in H as (q & Hq & H).
  apply bind_ok in H as (idf & Hidf & H).
  apply bind_ok in H as (j & Hj & H).
  apply py_div_ok in Htf as (Hwsz & ->).
  apply py_div_ok in Hq as (_ & ->).
  apply math_log_ok in Hidf as (Hq & ->).
  apply (matrix_set_ok _ _ _ _ _ _ _ Hshape) in H as (Hshape' & Hg & Hjc & Hget).
  split; [assumption|]. split; [assumption|].
  exists j. do 4 (split; [assumption|]). exact Hget.
Qed.

Lemma word_body_shape (d g : nat) (wsz : Z) (m m' : matrix) (w : string) :
  has_shape m rows cols ->
  word_body data d wsz g m w = Ok m' -> has_shape m' rows cols.
Proof.
  intros Hshape H. unfold word_body in H.
  destruct (count_in_doc data w d =? 0)%Z; [congruence|].
  destruct (count_in_doc data w d >? 0)%Z.
  - apply bind_ok in H as (tf_ & _ & H).
    apply bind_ok in H as (q & _ & H).
    apply bind_ok in H as (idf & _ & H).
    apply bind_ok in H as (j & _ & H).
    apply (matrix_set_ok _ _ _ _ _ _ _ Hshape) in H. tauto.
  - destruct (count_in_doc data w d =? -1)%Z; congruence.
Qed.

Lemma writes_nonpos (d j : nat) (w : string) :
  (count_in_doc data w d <= 0)%Z -> writes data d j w = false.
Proof.
  intros H. unfold writes.
  destruct (Z.gtb_spec (count_in_doc data w d) 0); [lia | reflexivity].
Qed.

(** The inner loop on row [g]: the columns its words index receive their
    weight, every other entry is left alone. *)
Lemma word_loop_get (d g : nat) (ws : list string) (m m' : matrix) :
  has_shape m rows cols ->
  foldM (word_body data d (word_size data d) g) ws m = Ok m' ->
  has_shape m' rows cols
  /\ forall i j, matrix_get m' i j
                 = if (i =? g)%nat && touched data d ws j
                   then weight data d (nth j (word_list data) EmptyString)
                   else matrix_get m i j.
Proof.
  revert m. induction ws as [|w ws IH]; intros m Hshape H; simpl in H.
  - injection H as <-. split; [assumption|].
    intros i j. simpl. rewrite andb_false_r. reflexivity.
  - apply bind_ok in H as (m1 & H1 & H).
    pose proof (word_body_shape _ _ _ _ _ _ Hshape H1) as Hshape1.
    destruct (IH _ Hshape1 H) as (Hshape' & Hget). split; [assumption|].
    intros i j. rewrite Hget. unfold touched. simpl existsb.
    fold (touched data d ws j).
    destruct (Z_lt_le_dec 0 (count_in_doc data w d)) as [Hpos|Hle].
    + destruct (word_body_store _ _ _ _ _ Hshape Hpos H1)
        as (_ & _ & jw & Hjw & _ & _ & _ & Hget1).
      rewrite Hget1. unfold writes. rewrite Hjw.
      destruct (Z.gtb_spec (count_in_doc data w d) 0); [|lia]. simpl.
      apply list_index_ok in Hjw.
      destruct (Nat.eqb_spec i g) as [->|]; simpl; [|reflexivity].
      rewrite (Nat.eqb_sym j jw).
      destruct (Nat.eqb_spec jw j) as [<-|]; simpl; [|reflexivity].
      rewrite (nth_error_nth _ _ EmptyString Hjw).
      destruct (touched data d ws jw); reflexivity.
    + rewrite (word_body_skip _ _ _ _ _ Hle) in H1. injection H1 as <-.
      rewrite (writes_nonpos _ _ _ Hle). reflexivity.
Qed.

(** A finished inner loop has computed lines 92-95 for every occurring word. *)
Lemma word_loop_defined (d g : nat) (ws : list string) (m m' : matrix) :
  has_shape m rows cols ->
  foldM (word_body data d (word_size data d) g) ws m = Ok m' ->
  forall w, In w ws -> (0 < count_in_doc data w d)%Z ->
            word_size data d <> 0%Z
            /\ 0 < IZR (Z.of_nat (doc_size data))
                   / IZR (count_doc_containing_word data w + 1).
Proof.
  revert m. induction ws as [|w0 ws IH]; intros m Hshape H w Hin Hpos;
    simpl in *; [contradiction|].
  apply bind_ok in H as (m1 & H1 & H).
  destruct Hin as [->|Hin].
  - destruct (word_body_store _ _ _ _ _ Hshape Hpos H1) as (? & ? & _). auto.
  - exact (IH m1 (word_body_shape _ _ _ _ _ _ Hshape H1) H w Hin Hpos).
Qed.

(** The sentence loop of one document fills [length l] consecutive rows. *)
Lemma sen_loop_get (d : nat) (l : list nat) (m m' : matrix) (g g' : nat) :
  has_shape m rows cols ->
  foldM (sen_body data d (word_size data d)) l (m, g) = Ok (m', g') ->
  g' = (g + List.length l)%nat
  /\ has_shape m' rows cols
  /\ forall i j, matrix_get m' i j
                 = if (g <=? i)%nat && (i <? g + List.length l)%nat
                      && touched data d (word_list data) j
                   then weight data d (nth j (word_list data) EmptyString)
                   else matrix_get m i j.
Proof.
  revert m g. induction l as [|x l IH]; intros m g Hshape H; simpl in H.
  - injection H as <- <-. split; [simpl; lia|]. split; [assumption|].
    intros i j. simpl List.length.
    replace ((g <=? i)%nat && (i <? g + 0)%nat) with false; [reflexivity|].
    symmetry. apply andb_false_iff.
    destruct (Nat.leb_spec g i); [right; apply Nat.ltb_ge; lia | auto].
  - apply bind_ok in H as ([m1 g1] & H1 & H).
    unfold sen_body in H1. apply bind_ok in H1 as (m1' & Hw & H1).
    injection H1 as <- <-.
    destruct (word_loop_get _ _ _ _ _ Hshape Hw) as (Hshape1 & Hget1).
    destruct (IH _ _ Hshape1 H) as (-> & Hshape' & Hget).
    split; [simpl; lia|]. split; [assumption|].
    intros i j. rewrite Hget, Hget1. simpl List.length.
    destruct (Nat.leb_spec (S g) i), (Nat.ltb_spec i (S g + List.length l)),
      (Nat.leb_spec g i), (Nat.ltb_spec i (g + S (List.length l))),
      (Nat.eqb_spec i g); simpl; try lia; try reflexivity;
      destruct (touched data d (word_list data) j); reflexivity.
Qed.

Lemma sen_loop_defined (d : nat) (l : list nat) (m m' : matrix) (g g' : nat) :
  has_shape m rows cols -> l <> [] ->
  foldM (sen_body data d (word_size data d)) l (m, g) = Ok (m', g') ->
  forall w, In w (word_list data) -> (0 < count_in_doc data w d)%Z ->
            word_size data d <> 0%Z
            /\ 0 < IZR (Z.of_nat (doc_size data))
                   / IZR (count_doc_containing_word data w + 1).
Proof.
  intros Hshape Hl H. destruct l as [|x l]; [congruence|]. simpl in H.
  apply bind_ok in H as ([m1 g1] & H1 & _).
  unfold sen_body in H1. apply bind_ok in H1 as (m1' & Hw & _).
  eapply word_loop_defined; eassumption.
Qed.
End TfIdfLoops.

(** ** [tf_idf]: the document loop and the result *)

Section TfIdfResult.
Variable data : DocProcess.
Variables rows cols : nat.

Lemma sen_offset_mono (d k : nat) :
  (d < k)%nat -> (sen_offset data d + sen_size data d <= sen_offset data k)%nat.
Proof.
  induction k as [|k IH]; intros H; [lia|]. simpl.
  destruct (Nat.eq_dec d k) as [->|]; [lia|].
  assert (d < k)%nat by lia. specialize (IH H0). lia.
Qed.

Lemma doc_loop_get (k : nat) (m0 m' : matrix) (g' : nat) :
  has_shape m0 rows cols ->
  foldM (doc_body data) (seq 0 k) (m0, 0%nat) = Ok (m', g') ->
  g' = sen_offset data k
  /\ has_shape m' rows cols
  /\ (forall d s j, (d < k)%nat -> (s < sen_size data d)%nat ->
        matrix_get m' (sen_offset data d + s) j
        = if touched data d (word_list data) j
          then weight data d (nth j (word_list data) EmptyString)
          else matrix_get m0 (sen_offset data d + s) j)
  /\ (forall i j, (sen_offset data k <= i)%nat ->
        matrix_get m' i j = matrix_get m0 i j)
  /\ (forall d w, (d < k)%nat -> (0 < sen_size data d)%nat ->
        In w (word_list data) -> (0 < count_in_doc data w d)%Z ->
        word_size data d <> 0%Z
        /\ 0 < IZR (Z.of_nat (doc_size data))
               / IZR (count_doc_containing_word data w + 1)).
Proof.
  intros Hshape. revert m' g'. induction k as [|k IH]; intros m' g' H.
  - simpl in H. injection H as <- <-. simpl.
    split; [reflexivity|]. split; [assumption|].
    split; [intros; lia|]. split; [reflexivity | intros; lia].
  - rewrite seq_S, foldM_app in H. simpl in H.
    apply bind_ok in H as ([m1 g1] & Hk & H).
    apply bind_ok in H as ([m2 g2] & H & E). injection E as <- <-.
    destruct (IH _ _ Hk) as (-> & Hshape1 & Hdone & Hrest & Hdef).
    unfold doc_body in H.
    destruct (sen_loop_get _ _ _ _ _ _ _ _ _ Hshape1 H) as (-> & Hshape2 & Hget).
    rewrite length_seq in *.
    split; [reflexivity|]. split; [assumption|]. split; [|split].
    + intros d s j Hd Hs. rewrite Hget.
      destruct (Nat.eq_dec d k) as [->|Hne].
      * replace ((sen_offset data k <=? sen_offset data k + s)%nat
                 && (sen_offset data k + s <? sen_offset data k + sen_size data k)%nat)
          with true.
        -- simpl. rewrite Hrest by lia.
           destruct (touched data k (word_list data) j); reflexivity.
        -- symmetry. apply andb_true_iff. split;
             [apply Nat.leb_le | apply Nat.ltb_lt]; lia.
      * assert (Hdk : (d < k)%nat) by lia.
        pose proof (sen_offset_mono d k Hdk).
        replace ((sen_offset data k <=? sen_offset data d + s)%nat) with false
          by (symmetry; apply Nat.leb_gt; lia).
        simpl. apply Hdone; assumption.
    + intros i j Hi. simpl in Hi. rewrite Hget.
      replace ((i <? sen_offset data k + sen_size data k)%nat) with false
        by (symmetry; apply Nat.ltb_ge; lia).
      rewrite andb_false_r. simpl. apply Hrest. lia.
    + intros d w Hd Hs Hin Hpos.
      destruct (Nat.eq_dec d k) as [->|Hne].
      * eapply (sen_loop_defined _ _ _ _ _ _ _ _ _ Hshape1); try eassumption.
        intros E. apply (f_equal (@List.length nat)) in E.
        rewrite length_seq in E. simpl in E. lia.
      * apply Hdef; trivial; lia.
Qed.

(** With a duplicate-free vocabulary, column [j] of a row of document [d] is
    stored into exactly when word [j] occurs in [d]. *)
Lemma touched_nodup (d j : nat) (w : string) :
  NoDup (word_list data) -> nth_error (word_list data) j = Some w ->
  touched data d (word_list data) j = (count_in_doc data w d >? 0)%Z.
Proof.
  intros Hnd Hj. unfold touched.
  destruct (count_in_doc data w d >? 0)%Z eqn:Hc.
  - apply existsb_exists. exists w. split; [eapply nth_error_In; eassumption|].
    unfold writes. rewrite Hc, (list_index_nodup _ _ _ Hnd Hj), Nat.eqb_refl.
    reflexivity.
  - destruct (existsb (writes data d j) (word_list data)) eqn:E; [|reflexivity].
    apply existsb_exists in E as (w' & _ & Hw'). unfold writes in Hw'.
    apply andb_true_iff in Hw' as (Hc' & Hidx).
    destruct (list_index w' (word_list data)) as [k|] eqn:Hk; [|discriminate].
    apply Nat.eqb_eq in Hidx. subst k. apply list_index_ok in Hk.
    congruence.
Qed.

Lemma long_sen_idf : (q <- py_div 1 (1 + 1) ;; math_log q) = Ok (ln (1 / 2)).
Proof.
  cbn. unfold math_log. rewrite Rltb_lt by lra. reflexivity.
Qed.

Lemma long_sen_body_ok (acc c : list R) (w : string) :
  long_sen_body data (word_size_total data) acc w = Ok c ->
  word_size_total data <> 0%Z /\ c = acc ++ [long_sen_weight data w].
Proof.
  unfold long_sen_body. intros H.
  apply bind_ok in H as (tf_ & Htf & H). apply py_div_ok in Htf as (Hne & ->).
  apply bind_ok in H as (q & Hq & H). apply bind_ok in H as (idf & Hidf & H).
  pose proof long_sen_idf as E. rewrite Hq in E. cbn [bind] in E.
  rewrite Hidf in E. injection E as ->. injection H as <-. auto.
Qed.

Lemma long_sen_loop_ok (ws : list string) (acc c : list R) :
  foldM (long_sen_body data (word_size_total data)) ws acc = Ok c ->
  c = acc ++ map (long_sen_weight data) ws
  /\ (ws = [] \/ word_size_total data <> 0%Z).
Proof.
  revert acc. induction ws as [|w ws IH]; intros acc H; simpl in H.
  - injection H as <-. rewrite app_nil_r. auto.
  - apply bind_ok in H as (acc1 & H1 & H).
    apply long_sen_body_ok in H1 as (Hne & ->).
    apply IH in H as (-> & _). rewrite <- app_assoc. auto.
Qed.

Lemma long_sen_loop_succeeds (ws : list string) (acc : list R) :
  ws = [] \/ word_size_total data <> 0%Z ->
  foldM (long_sen_body data (word_size_total data)) ws acc
  = Ok (acc ++ map (long_sen_weight data) ws).
Proof.
  intros [-> | Hne]; [simpl; rewrite app_nil_r; reflexivity|].
  revert acc. induction ws as [|w ws IH]; intros acc; simpl.
  - rewrite app_nil_r. reflexivity.
  - unfold long_sen_body at 1. rewrite py_div_nonzero by assumption.
    cbn [bind]. pose proof long_sen_idf as E.
    destruct (py_div 1 (1 + 1)) as [q|]; [|discriminate]. cbn [bind] in *.
    rewrite E. cbn [bind]. rewrite IH, <- app_assoc. reflexivity.
Qed.

Lemma long_sen_loop_zero (w : string) (ws : list string) (acc : list R) :
  word_size_total data = 0%Z ->
  foldM (long_sen_body data (word_size_total data)) (w :: ws) acc
  = Err ZeroDivisionError.
Proof. intros H. simpl. unfold long_sen_body. rewrite H. reflexivity. Qed.
End TfIdfResult.

(** What a returned matrix and centroid hold. *)
Lemma tf_idf_ok (data : DocProcess) (m : matrix) (c : list R) :
  tf_idf data = Ok (m, c) ->
  has_shape m (sen_size_total data) (List.length (word_list data))
  /\ (forall d s j, (d < doc_size data)%nat -> (s < sen_size data d)%nat ->
        matrix_get m (sen_offset data d + s) j
        = if touched data d (word_list data) j
          then weight data d (nth j (word_list data) EmptyString)
          else 0)
  /\ (forall d w, (d < doc_size data)%nat -> (0 < sen_size data d)%nat ->
        In w (word_list data) -> (0 < count_in_doc data w d)%Z ->
        word_size data d <> 0%Z
        /\ 0 < IZR (Z.of_nat (doc_size data))
               / IZR (count_doc_containing_word data w + 1))
  /\ c = map (long_sen_weight data) (word_list data)
  /\ (word_list data = [] \/ word_size_total data <> 0%Z).
Proof.
  unfold tf_idf. intros H.
  apply bind_ok in H as ([m' g'] & Hdocs & H). simpl fst in H.
  apply bind_ok in H as (c' & Hc & H). injection H as <- <-.
  destruct (doc_loop_get _ _ _ _ _ _ _ (np_zeros_shape _ _) Hdocs)
    as (_ & Hshape & Hget & _ & Hdef).
  apply long_sen_loop_ok in Hc as (-> & Hwst).
  split; [assumption|]. split; [|auto].
  intros d s j Hd Hs. rewrite (Hget d s j Hd Hs), np_zeros_get. reflexivity.
Qed.

(** ** [tf_idf] raises nothing on a well-formed corpus *)

Section TfIdfTotal.
Variable data : DocProcess.
Variable rows : nat.

Lemma sen_body_eq (d : nat) (wsz : Z) (m : matrix) (g x : nat) :
  sen_body data d wsz (m, g) x
  = (m' <- foldM (word_body data d wsz g) (word_list data) m ;; Ok (m', S g)).
Proof. reflexivity. Qed.

Lemma doc_body_eq (st : matrix * nat) (d : nat) :
  doc_body data st d
  = foldM (sen_body data d (word_size data d)) (seq 0 (sen_size data d)) st.
Proof. reflexivity. Qed.

Lemma math_log_pos (x : R) : 0 < x -> math_log x = Ok (ln x).
Proof. intros H. unfold math_log. rewrite Rltb_lt by assumption. reflexivity. Qed.

Lemma word_body_succeeds (d g : nat) (m : matrix) (w : string) :
  has_shape m rows (List.length (word_list data)) ->
  (g < rows)%nat -> (d < doc_size data)%nat ->
  In w (word_list data) -> doc_computable data d ->
  exists m', word_body data d (word_size data d) g m w = Ok m'.
Proof.
  intros Hshape Hg Hd Hin Hcomp.
  destruct (Z_lt_le_dec 0 (count_in_doc data w d)) as [Hpos|Hle];
    [|exists m; apply word_body_skip; assumption].
  destruct (Hcomp w Hin Hpos) as (Hwsz & Hdf).
  unfold word_body.
  destruct (Z.eqb_spec (count_in_doc data w d) 0); [lia|].
  destruct (Z.gtb_spec (count_in_doc data w d) 0); [|lia].
  rewrite py_div_nonzero by assumption. cbn [bind].
  rewrite py_div_nonzero by lia. cbn [bind].
  rewrite math_log_pos.
  2:{ apply Rdiv_lt_0_compat; apply IZR_lt; lia. }
  cbn [bind].
  destruct (list_index_in w (word_list data) Hin) as [j Hj]. rewrite Hj.
  cbn [bind]. apply (matrix_set_lt m rows (List.length (word_list data)));
    trivial.
  apply list_index_ok in Hj. apply nth_error_Some. congruence.
Qed.

Lemma word_loop_succeeds (d g : nat) (ws : list string) (m : matrix) :
  has_shape m rows (List.length (word_list data)) ->
  (g < rows)%nat -> (d < doc_size data)%nat ->
  incl ws (word_list data) -> doc_computable data d ->
  exists m', foldM (word_body data d (word_size data d) g) ws m = Ok m'
             /\ has_shape m' rows (List.length (word_list data)).
Proof.
  intros Hshape Hg Hd Hincl Hcomp. revert m Hshape.
  induction ws as [|w ws IH]; intros m Hshape; simpl; [eauto|].
  destruct (word_body_succeeds d g m w) as [m1 H1]; trivial.
  { apply Hincl. left. reflexivity. }
  rewrite H1. cbn [bind]. apply IH.
  - intros x Hx. apply Hincl. right. assumption.
  - eapply word_body_shape; eassumption.
Qed.

Lemma sen_loop_succeeds (d : nat) (l : list nat) (m : matrix) (g : nat) :
  has_shape m rows (List.length (word_list data)) ->
  (g + List.length l <= rows)%nat -> (d < doc_size data)%nat ->
  (l <> [] -> doc_computable data d) ->
  exists m', foldM (sen_body data d (word_size data d)) l (m, g)
             = Ok (m', (g + List.length l)%nat)
             /\ has_shape m' rows (List.length (word_list data)).
Proof.
  intros Hshape Hg Hd Hcomp. revert m g Hshape Hg.
  induction l as [|x l IH]; intros m g Hshape Hg; cbn [foldM List.length].
  - rewrite Nat.add_0_r. eauto.
  - assert (Hc : doc_computable data d) by (apply Hcomp; discriminate).
    simpl in Hg.
    destruct (word_loop_succeeds d g (word_list data) m) as (m1 & H1 & Hshape1);
      trivial; [lia | apply incl_refl |].
    rewrite sen_body_eq, H1. cbn [bind].
    destruct (IH (fun _ => Hc) m1 (S g) Hshape1) as (m' & H' & Hshape'); [lia|].
    rewrite H'. replace (S g + List.length l)%nat with (g + S (List.length l))%nat
      by lia. eauto.
Qed.

Lemma doc_loop_succeeds (k : nat) (m0 : matrix) :
  has_shape m0 rows (List.length (word_list data)) ->
  (k <= doc_size data)%nat ->
  (forall d, (d < k)%nat -> (0 < sen_size data d)%nat -> doc_computable data d) ->
  (sen_offset data k <= rows)%nat ->
  exists m', foldM (doc_body data) (seq 0 k) (m0, 0%nat)
             = Ok (m', sen_offset data k)
             /\ has_shape m' rows (List.length (word_list data)).
Proof.
  intros Hshape. induction k as [|k IH]; intros Hk Hcomp Hoff.
  - simpl. eauto.
  - cbn [sen_offset] in *.
    destruct IH as (m1 & H1 & Hshape1); [lia | intros; apply Hcomp; lia | lia |].
    rewrite seq_S, foldM_app, H1. cbn [bind foldM Nat.add].
    destruct (sen_loop_succeeds k (seq 0 (sen_size data k)) m1
                (sen_offset data k)) as (m' & H' & Hshape'); trivial.
    + rewrite length_seq. assumption.
    + intros Hne. apply Hcomp; [lia|].
      destruct (sen_size data k); [contradiction Hne; reflexivity | lia].
    + rewrite doc_body_eq, H', length_seq. cbn [bind]. eauto.
Qed.
End TfIdfTotal.

Lemma tf_idf_succeeds (data : DocProcess) :
  corpus_ok data ->
  exists m, tf_idf data = Ok (m, map (long_sen_weight data) (word_list data)).
Proof.
  intros (Hcomp & Hoff & Hwst). unfold tf_idf.
  destruct (doc_loop_succeeds data (sen_size_total data) (doc_size data)
              (np_zeros (sen_size_total data) (List.length (word_list data))))
    as (m & Hm & _); trivial.
  - apply np_zeros_shape.
  - rewrite Hm. cbn [bind fst].
    rewrite long_sen_loop_succeeds by assumption. cbn [bind app]. eauto.
Qed.

(** The first document with sentences, an occurring vocabulary word and a
    zero word total makes line 92 divide by zero; nothing catches it. *)
Lemma tf_idf_zero_word_size (data : DocProcess) (d : nat) (w : string)
    (st : matrix * nat) :
  (d < doc_size data)%nat -> (0 < sen_size data d)%nat ->
  In w (word_list data) -> (0 < count_in_doc data w d)%Z ->
  word_size data d = 0%Z ->
  foldM (doc_body data) (seq 0 d) (np_zeros (sen_size_total data)
                                     (List.length (word_list data)), 0%nat)
  = Ok st ->
  tf_idf data = Err ZeroDivisionError.
Proof.
  intros Hd Hs Hin Hpos Hwsz Hpre. unfold tf_idf.
  replace (doc_size data) with (d + S (doc_size data - S d))%nat by lia.
  rewrite seq_app, foldM_app, Hpre. cbn [bind]. simpl seq. cbn [foldM].
  rewrite doc_body_eq.
  destruct (sen_size data d) as [|n]; [lia|]. simpl seq. cbn [foldM].
  destruct st as [m g]. rewrite sen_body_eq.
  assert (Hloop : forall ws m0, In w ws ->
            foldM (word_body data d (word_size data d) g) ws m0
            = Err ZeroDivisionError).
  { induction ws as [|x ws IH]; intros m0 Hx; simpl in *; [contradiction|].
    destruct (Z_lt_le_dec 0 (count_in_doc data x d)) as [Hxpos|Hxle].
    - unfold word_body at 1.
      destruct (Z.eqb_spec (count_in_doc data x d) 0); [lia|].
      destruct (Z.gtb_spec (count_in_doc data x d) 0); [|lia].
      rewrite Hwsz. reflexivity.
    - rewrite word_body_skip by assumption. cbn [bind].
      destruct Hx as [->|Hx]; [lia | auto]. }
  rewrite Hloop by assumption. reflexivity.
Qed.

(** ** Sorting the ranking *)

Lemma tuple_lt_num (a b : float64 * nat) :
  is_num a -> is_num b ->
  tuple_lt a b = true
  <-> score a < score b \/ (score a = score b /\ (snd a < snd b)%nat).
Proof.
  intros [x Hx] [y Hy]. unfold tuple_lt, score. rewrite Hx, Hy. simpl.
  unfold Reqb. destruct (Req_dec_T x y) as [->|Hne].
  - rewrite Nat.ltb_lt. split; [auto | intros [H|[_ H]]; [lra | assumption]].
  - rewrite Rltb_true_iff. split; [auto | intros [H|[H _]]; [assumption | contradiction]].
Qed.

Lemma tuple_lt_false_le (a b : float64 * nat) :
  is_num a -> is_num b -> tuple_lt a b = false -> tuple_le b a.
Proof.
  intros Ha Hb H. unfold tuple_le.
  destruct (Rtotal_order (score a) (score b)) as [Hlt|[Heq|Hgt]].
  - assert (tuple_lt a b = true) by (apply tuple_lt_num; auto). congruence.
  - destruct (Nat.lt_ge_cases (snd a) (snd b)) as [Hs|Hs].
    + assert (tuple_lt a b = true) by (apply tuple_lt_num; auto). congruence.
    + right. auto.
  - left. assumption.
Qed.

Lemma tuple_lt_true_le (a b : float64 * nat) :
  is_num a -> is_num b -> tuple_lt a b = true -> tuple_le a b.
Proof.
  intros Ha Hb H. apply tuple_lt_num in H; trivial. unfold tuple_le.
  destruct H as [H|[H1 H2]]; [left; assumption | right; split; [assumption | lia]].
Qed.

Lemma tuple_le_trans (a b c : float64 * nat) :
  tuple_le a b -> tuple_le b c -> tuple_le a c.
Proof.
  unfold tuple_le. intros [H1|[H1 H1']] [H2|[H2 H2']].
  - left. lra.
  - left. lra.
  - left. lra.
  - right. split; [lra | lia].
Qed.

Lemma insert_sorted_perm (x : float64 * nat) (l : list (float64 * nat)) :
  Permutation (insert_sorted x l) (x :: l).
Proof.
  induction l as [|y l IH]; simpl; [reflexivity|].
  destruct (tuple_lt x y); [reflexivity|].
  rewrite IH. apply perm_swap.
Qed.

Lemma list_sort_perm (l : list (float64 * nat)) : Permutation (list_sort l) l.
Proof.
  unfold list_sort.
  assert (H : forall acc, Permutation (fold_left (fun acc x => insert_sorted x acc) l acc)
                            (acc ++ l)).
  { induction l as [|x l IH]; intros acc; simpl.
    - rewrite app_nil_r. reflexivity.
    - rewrite IH, insert_sorted_perm. apply Permutation_middle. }
  apply (H []).
Qed.

Lemma list_sort_reverse_perm (l : list (float64 * nat)) :
  Permutation (list_sort_reverse l) l.
Proof.
  unfold list_sort_reverse.
  rewrite <- Permutation_rev, list_sort_perm, <- Permutation_rev. reflexivity.
Qed.

Lemma insert_sorted_sorted (x : float64 * nat) (l : list (float64 * nat)) :
  is_num x -> Forall is_num l ->
  StronglySorted tuple_le l -> StronglySorted tuple_le (insert_sorted x l).
Proof.
  intros Hx Hl Hs. induction Hs as [|y l Hs IH Hy]; simpl.
  - constructor; constructor.
  - inversion Hl as [|? ? Hny Hnl]; subst.
    destruct (tuple_lt x y) eqn:E.
    + apply tuple_lt_true_le in E; trivial.
      constructor; [constructor; assumption|].
      constructor; [assumption|].
      eapply Forall_impl; [|exact Hy]. intros z Hz.
      eapply tuple_le_trans; eassumption.
    + apply tuple_lt_false_le in E; trivial.
      constructor; [apply IH; assumption|].
      eapply Permutation_Forall;
        [symmetry; apply insert_sorted_perm|].
      constructor; assumption.
Qed.

Lemma list_sort_sorted (l : list (float64 * nat)) :
  Forall is_num l -> StronglySorted tuple_le (list_sort l).
Proof.
  unfold list_sort.
  assert (H : forall acc, Forall is_num acc -> Forall is_num l ->
                StronglySorted tuple_le acc ->
                StronglySorted tuple_le
                  (fold_left (fun acc x => insert_sorted x acc) l acc)).
  { induction l as [|x l IH]; intros acc Hacc Hl Hs; simpl; [assumption|].
    inversion Hl; subst. apply IH; trivial.
    - eapply Permutation_Forall; [symmetry; apply insert_sorted_perm|].
      constructor; assumption.
    - apply insert_sorted_sorted; assumption. }
  intros Hl. apply H; trivial; constructor.
Qed.

Lemma StronglySorted_nth_error {A : Type} (le : A -> A -> Prop) (l : list A) :
  StronglySorted le l ->
  forall i j a b, (i < j)%nat -> nth_error l i = Some a ->
                  nth_error l j = Some b -> le a b.
Proof.
  induction 1 as [|x l Hs IH Hx]; intros i j a b Hij Hi Hj.
  - destruct i; discriminate.
  - destruct j as [|j]; [lia|]. simpl in Hj. destruct i as [|i]; simpl in Hi.
    + injection Hi as <-. rewrite Forall_forall in Hx. apply Hx.
      eapply nth_error_In; eassumption.
    + eapply IH; [|eassumption|eassumption]. lia.
Qed.

Lemma nth_error_rev {A : Type} (l : list A) (i : nat) (a : A) :
  nth_error (rev l) i = Some a ->
  (i < List.length l)%nat /\ nth_error l (List.length l - S i) = Some a.
Proof.
  intros H.
  assert (Hi : (i < List.length l)%nat).
  { rewrite <- length_rev. apply nth_error_Some. congruence. }
  split; [assumption|].
  rewrite (nth_error_nth' (rev l) a) in H by (rewrite length_rev; assumption).
  rewrite rev_nth in H by assumption.
  rewrite (nth_error_nth' l a) by lia. assumption.
Qed.

(** In a numeric ranking sorted by [list_sort_reverse], an earlier tuple is
    never below a later one in the tuple order. *)
Lemma list_sort_reverse_desc (l : list (float64 * nat)) :
  Forall is_num l ->
  forall i j a b, (i < j)%nat ->
    nth_error (list_sort_reverse l) i = Some a ->
    nth_error (list_sort_reverse l) j = Some b ->
    tuple_le b a.
Proof.
  intros Hl i j a b Hij Hi Hj. unfold list_sort_reverse in *.
  apply nth_error_rev in Hi as (Hi' & Hi). apply nth_error_rev in Hj as (Hj' & Hj).
  assert (Hnum : Forall is_num (rev l))
    by (eapply Permutation_Forall; [apply Permutation_rev | assumption]).
  eapply (StronglySorted_nth_error _ _ (list_sort_sorted _ Hnum));
    [|exact Hj|exact Hi]. lia.
Qed.

(** ** The ranking *)

Lemma sim_loop_ok (m : matrix) (c : list R) (rs : list nat)
    (acc l : list (float64 * nat)) :
  foldM (sim_body m c) rs acc = Ok l ->
  map snd l = map snd acc ++ rs
  /\ (Forall (scored_by m c) acc -> Forall (scored_by m c) l).
Proof.
  revert acc. induction rs as [|r rs IH]; intros acc H; simpl in H.
  - injection H as <-. rewrite app_nil_r. auto.
  - apply bind_ok in H as (acc1 & H1 & H). unfold sim_body in H1.
    apply bind_ok in H1 as (row & Hrow & H1).
    apply bind_ok in H1 as (cosine & Hcos & H1). injection H1 as <-.
    apply IH in H as (Hsnd & Hall). split.
    + rewrite Hsnd, map_app, <- app_assoc. reflexivity.
    + intros Hacc. apply Hall. apply Forall_app. split; [assumption|].
      constructor; [|constructor]. exists row. auto.
Qed.

Lemma rank_ok (m : matrix) (c : list R) (l : list (float64 * nat)) :
  rank m c = Ok l ->
  Permutation (map snd l) (seq 0 (List.length m))
  /\ Forall (scored_by m c) l.
Proof.
  unfold rank. intros H. apply bind_ok in H as (l0 & H0 & H).
  injection H as <-. apply sim_loop_ok in H0 as (Hsnd & Hall). simpl in Hsnd.
  split.
  - rewrite <- Hsnd. apply Permutation_map, list_sort_reverse_perm.
  - eapply Permutation_Forall; [symmetry; apply list_sort_reverse_perm|].
    apply Hall. constructor.
Qed.

Lemma rank_length (m : matrix) (c : list R) (l : list (float64 * nat)) :
  rank m c = Ok l -> List.length l = List.length m.
Proof.
  intros H. apply rank_ok in H as (H & _).
  apply Permutation_length in H. rewrite length_map, length_seq in H. assumption.
Qed.

Lemma rank_succeeds (m : matrix) (c : list R) (rows : nat) :
  has_shape m rows (List.length c) -> exists l, rank m c = Ok l.
Proof.
  intros [Hrows Hcols]. unfold rank.
  assert (H : forall rs acc, Forall (fun r => (r < rows)%nat) rs ->
                exists l, foldM (sim_body m c) rs acc = Ok l).
  { induction rs as [|r rs IH]; intros acc Hrs; simpl; [eauto|].
    inversion Hrs as [|? ? Hr Hrs']; subst. unfold sim_body at 1.
    rewrite (getitem_lt m r []) by lia. cbn [bind].
    unfold cos_similarity. rewrite ndarray_dot_same_length by auto.
    cbn [bind]. apply IH. assumption. }
  destruct (H (seq 0 (List.length m)) []) as [l ->]; [|simpl; eauto].
  apply Forall_forall. intros r Hr. apply in_seq in Hr. lia.
Qed.

(** Every score is nan or a number of [[cos 1, 1]]. *)
Lemma scored_by_value (m : matrix) (c : list R) (p : float64 * nat) :
  scored_by m c p ->
  fst p = NaN \/ exists x, fst p = Num x /\ cos 1 <= x <= 1.
Proof. intros (row & _ & H). eapply cos_similarity_value; eassumption. Qed.

(** ** The selection loop *)

Section SelectionFacts.
Variable data : DocProcess.
Variable s_w_matrix : matrix.
Variable sim_lst : list (float64 * nat).

Lemma select_loop_step (st : sel_state) :
  select_loop data s_w_matrix sim_lst st
  = match select_step data s_w_matrix sim_lst st with
    | Err e => Err e
    | Ok (Stop st') => Ok st'
    | Ok (Next st') => select_loop data s_w_matrix sim_lst st'
    end.
Proof.
  rewrite select_loop_equation_1. unfold select_loop_clause_1.
  destruct (inspect (select_step data s_w_matrix sim_lst st)) as [[[st'|st']|e] E];
    cbn; rewrite E; reflexivity.
Qed.

Lemma select_step_budget (st : sel_state) :
  (665 <= sum_size st)%nat ->
  select_step data s_w_matrix sim_lst st = Ok (Stop st).
Proof.
  intros H. unfold select_step.
  destruct (current_rank st =? List.length sim_lst)%nat; [reflexivity|].
  destruct (Nat.leb_spec 665 (sum_size st)); [reflexivity | lia].
Qed.

Lemma select_step_exhausted (st : sel_state) :
  current_rank st = List.length sim_lst ->
  select_step data s_w_matrix sim_lst st = Ok (Stop st).
Proof. intros H. unfold select_step. rewrite H, Nat.eqb_refl. reflexivity. Qed.

Lemma select_step_stop (st st' : sel_state) :
  select_step data s_w_matrix sim_lst st = Ok (Stop st') ->
  st' = st
  /\ (current_rank st = List.length sim_lst \/ (665 <= sum_size st)%nat).
Proof.
  unfold select_step.
  destruct (Nat.eqb_spec (current_rank st) (List.length sim_lst)) as [Heq|Hne].
  { intros E. injection E as <-. auto. }
  destruct (Nat.leb_spec 665 (sum_size st)) as [Hge|Hlt].
  { intros E. injection E as <-. auto. }
  intros E.
  repeat match type of E with
         | context [bind ?x _] => destruct x; cbn [bind] in E
         | context [if ?b then _ else _] => destruct b
         end; discriminate.
Qed.

(** One more round: the budget was not met, the rank advances by one, and
    the summary is kept or extended by the candidate's text. *)
Lemma select_step_next (st st' : sel_state) :
  select_step data s_w_matrix sim_lst st = Ok (Next st') ->
  (current_rank st < List.length sim_lst)%nat
  /\ (sum_size st < 665)%nat
  /\ current_rank st' = S (current_rank st)
  /\ ((base_rank st' = base_rank st /\ summary st' = summary st
       /\ sum_size st' = sum_size st)
      \/ exists cur,
           nth_error sim_lst (current_rank st) = Some cur
           /\ base_rank st' = current_rank st
           /\ summary st' = summary st ++ [abstract data (snd cur)]
           /\ sum_size st'
              = (sum_size st + String.length (abstract data (snd cur)))%nat).
Proof.
  unfold select_step.
  destruct (Nat.eqb_spec (current_rank st) (List.length sim_lst)) as [Heq|Hne];
    [discriminate|].
  destruct (Nat.leb_spec 665 (sum_size st)) as [Hge|Hbudget]; [discriminate|].
  intros H. apply bind_ok in H as (cur & Hcur & H).
  apply bind_ok in H as (row_cur & _ & H).
  apply bind_ok in H as (bas & _ & H).
  apply bind_ok in H as (row_bas & _ & H).
  apply bind_ok in H as (sim & _ & H).
  unfold getitem in Hcur.
  destruct (nth_error sim_lst (current_rank st)) as [cur'|] eqn:E;
    [|discriminate].
  injection Hcur as ->.
  assert (Hrank : (current_rank st < List.length sim_lst)%nat)
    by (apply nth_error_Some; congruence).
  split; [assumption|]. split; [assumption|].
  destruct (float_lt sim (Num 0.539)); injection H as <-; cbn.
  - split; [lia|]. right. exists cur. auto.
  - split; [lia|]. left. auto.
Qed.

(** The redundancy test compares a value of [[cos 1, 1]], or nan, with
    0.539: it never succeeds. *)
Lemma select_step_keeps_summary (st st' : sel_state) :
  select_step data s_w_matrix sim_lst st = Ok (Next st') ->
  summary st' = summary st.
Proof.
  unfold select_step.
  destruct (current_rank st =? List.length sim_lst)%nat; [discriminate|].
  destruct (665 <=? sum_size st)%nat; [discriminate|].
  intros H. apply bind_ok in H as (cur & _ & H).
  apply bind_ok in H as (row_cur & _ & H).
  apply bind_ok in H as (bas & _ & H).
  apply bind_ok in H as (row_bas & _ & H).
  apply bind_ok in H as (sim & Hsim & H).
  assert (Hlt : float_lt sim (Num 0.539) = false).
  { apply cos_similarity_value in Hsim as [->|(x & -> & Hx & _)];
      [reflexivity|].
    simpl. apply Rltb_nlt. pose proof cos_1_lower. lra. }
  rewrite Hlt in H. injection H as <-. reflexivity.
Qed.

Section WellFormed.
Variables rows cols : nat.
Hypothesis Hshape : has_shape s_w_matrix rows cols.
Hypothesis Hidx : Forall (fun p => (snd p < rows)%nat) sim_lst.

Lemma select_step_progress (st : sel_state) :
  sel_inv sim_lst st ->
  exists f, select_step data s_w_matrix sim_lst st = Ok f
            /\ match f with
               | Next st' => sel_inv sim_lst st'
               | Stop _ => True
               end.
Proof.
  intros [Hb Hc]. unfold select_step.
  destruct (Nat.eqb_spec (current_rank st) (List.length sim_lst));
    [eexists; split; [reflexivity | exact I]|].
  destruct (665 <=? sum_size st)%nat;
    [eexists; split; [reflexivity | exact I]|].
  assert (Hc' : (current_rank st < List.length sim_lst)%nat) by lia.
  set (d0 := (NaN, 0%nat)).
  rewrite (getitem_lt sim_lst _ d0 Hc'). cbn [bind].
  rewrite Forall_forall in Hidx. destruct Hshape as [Hrows Hcols].
  assert (Hrc : (snd (nth (current_rank st) sim_lst d0) < rows)%nat)
    by (apply Hidx, nth_In; assumption).
  assert (Hrb : (snd (nth (base_rank st) sim_lst d0) < rows)%nat)
    by (apply Hidx, nth_In; assumption).
  rewrite (getitem_lt s_w_matrix _ []) by lia. cbn [bind].
  rewrite (getitem_lt sim_lst _ d0 Hb). cbn [bind].
  rewrite (getitem_lt s_w_matrix _ []) by lia. cbn [bind].
  unfold cos_similarity.
  rewrite ndarray_dot_same_length by (rewrite !Hcols by assumption; reflexivity).
  cbn [bind].
  match goal with |- context [if ?b then _ else _] => destruct b end;
    eexists; (split; [reflexivity|]); unfold sel_inv; cbn; lia.
Qed.

(** The loop ends without an exception, on the budget or at the end of the
    ranking, having only extended the summary. *)
Lemma select_loop_terminates (st : sel_state) :
  sel_inv sim_lst st ->
  exists st', select_loop data s_w_matrix sim_lst st = Ok st'
              /\ ((665 <= sum_size st')%nat
                  \/ current_rank st' = List.length sim_lst)
              /\ (sum_size st <= sum_size st')%nat
              /\ exists more, summary st' = summary st ++ more.
Proof.
  remember (List.length sim_lst - current_rank st)%nat as n eqn:Hn.
  revert st Hn. induction n as [n IH] using lt_wf_ind. intros st Hn Hinv.
  rewrite select_loop_step.
  destruct (select_step_progress st Hinv) as ([st'|st'] & Hstep & Hinv').
  - rewrite Hstep. apply select_step_stop in Hstep as (-> & Hwhy).
    exists st. split; [reflexivity|]. split; [tauto|]. split; [lia|].
    exists []. rewrite app_nil_r. reflexivity.
  - rewrite Hstep.
    apply select_step_next in Hstep as (Hlt & _ & Hcur & Hsum).
    destruct (IH (List.length sim_lst - current_rank st')%nat) with (st := st')
      as (st'' & Hloop & Hend & Hmono & more & Hmore); [lia | reflexivity | assumption |].
    exists st''. split; [assumption|]. split; [assumption|].
    destruct Hsum as [(_ & Hs & Hz) | (cur & _ & _ & Hs & Hz)].
    + rewrite Hs, Hz in *. split; [lia|]. eauto.
    + rewrite Hs, Hz in *. split; [lia|].
      exists ([abstract data (snd cur)] ++ more). rewrite app_assoc. assumption.
Qed.
End WellFormed.
End SelectionFacts.

(** * The claims *)

(** ** [cos_similarity] *)

Lemma linalg_norm_unit : linalg_norm [1] = 1.
Proof.
  unfold linalg_norm. simpl. replace (1 * 1 + 0) with 1 by lra. apply sqrt_1.
Qed.

Lemma linalg_norm_zero_vector : linalg_norm [0] = 0.
Proof.
  unfold linalg_norm. simpl. replace (0 * 0 + 0) with 0 by lra. apply sqrt_0.
Qed.

(** Any vector of nonzero norm compared with itself gives [cos 1]. *)
Lemma cos_similarity_self (v : list R) :
  linalg_norm v <> 0 -> cos_similarity v v = Ok (Num (cos 1)).
Proof.
  intros Hv. rewrite cos_similarity_nonzero by auto.
  do 3 f_equal. unfold linalg_norm in *.
  rewrite sqrt_sqrt by apply dot_self_nonneg.
  apply Rdiv_diag. intros E. apply Hv. rewrite E. apply sqrt_0.
Qed.

(** C1: at [u = v = [1.0]] the normalised dot product is 1, and the function
    returns its cosine, a number below 0.55, instead of 1. *)
Theorem cos_similarity_unit_vector_is_cos_1 :
  dot [1] [1] / (linalg_norm [1] * linalg_norm [1]) = 1
  /\ cos_similarity [1] [1] = Ok (Num (cos 1))
  /\ cos 1 < 11 / 20.
Proof.
  split; [|split].
  - rewrite linalg_norm_unit. simpl. lra.
  - apply cos_similarity_self. rewrite linalg_norm_unit. lra.
  - apply cos_1_upper.
Qed.

(** C3, as stated, fails: the zero vector against [[1.0]] has a zero-norm
    operand and the comparison evaluates to nan, not to 0. *)
Lemma cos_similarity_zero_vector_not_0 :
  linalg_norm [0] = 0
  /\ cos_similarity [0] [1] = Ok NaN
  /\ cos_similarity [0] [1] <> Ok (Num 0).
Proof.
  assert (E : cos_similarity [0] [1] = Ok NaN).
  { apply cos_similarity_zero_norm; [reflexivity|].
    left. apply linalg_norm_zero_vector. }
  split; [apply linalg_norm_zero_vector|]. split; [assumption|].
  rewrite E. discriminate.
Qed.

(** C3, amended: when an operand has zero norm the comparison of two vectors
    of one length raises nothing and evaluates to nan. *)
Theorem cos_similarity_zero_norm_is_nan (u v : list R) :
  List.length u = List.length v ->
  linalg_norm u = 0 \/ linalg_norm v = 0 ->
  cos_similarity u v = Ok NaN.
Proof. apply cos_similarity_zero_norm. Qed.

Lemma cos_similarity_zero_norm_is_nan_witness :
  cos_similarity [0] [1] = Ok NaN.
Proof.
  apply (cos_similarity_zero_norm_is_nan [0] [1]).
  - reflexivity.
  - left. apply linalg_norm_zero_vector.
Defined.

(** C6: for two vectors of one length with nonzero norms the returned value
    is a number of [[0, 1]]. No sign condition on the entries is needed. *)
Theorem cos_similarity_in_unit_interval (u v : list R) :
  List.length u = List.length v ->
  linalg_norm u <> 0 -> linalg_norm v <> 0 ->
  exists r, cos_similarity u v = Ok (Num r) /\ 0 <= r <= 1.
Proof.
  intros Hlen Hu Hv. eexists. split.
  - apply cos_similarity_nonzero; assumption.
  - pose proof (cos_on_unit_interval _ (cosine_ratio_bounds u v Hu Hv)).
    pose proof cos_1_lower. lra.
Qed.

Lemma cos_similarity_in_unit_interval_witness :
  exists r, cos_similarity [1] [1] = Ok (Num r) /\ 0 <= r <= 1.
Proof.
  apply (cos_similarity_in_unit_interval [1] [1]).
  - reflexivity.
  - rewrite linalg_norm_unit. lra.
  - rewrite linalg_norm_unit. lra.
Defined.

(** ** [tf] *)

(** C10: whatever the sentences, [tf] returns two empty dictionaries; both
    loops run over no key, so nothing is counted and nothing is divided. *)
Theorem tf_returns_empty_dicts (A : Type) (sentences : list A) :
  tf sentences = Ok ([], []).
Proof. reflexivity. Qed.

(** ** [tf_idf] *)

Lemma three_docs_ok : corpus_ok three_docs.
Proof.
  split; [|split].
  - intros d Hd _ w _ _. split; [|simpl; lia].
    destruct d as [|[|[|d]]]; simpl; lia.
  - simpl. lia.
  - right. simpl. lia.
Qed.

(** C5, as stated, fails on the three-document corpus: "cat" occurs once in
    document 0, yet entry (0, cat) is exactly 0, the word being in two of the
    three documents. *)
Lemma three_docs_zero_entry_of_present_term :
  exists m c, tf_idf three_docs = Ok (m, c)
              /\ nth_error (word_list three_docs) 0 = Some "cat"%string
              /\ count_in_doc three_docs "cat" 0 = 1%Z
              /\ matrix_get m 0 0 = 0.
Proof.
  destruct (tf_idf_succeeds three_docs three_docs_ok) as [m Hm].
  exists m, (map (long_sen_weight three_docs) (word_list three_docs)).
  split; [assumption|]. split; [reflexivity|]. split; [reflexivity|].
  destruct (tf_idf_ok _ _ _ Hm) as (_ & Hget & _).
  specialize (Hget 0%nat 0%nat 0%nat). cbn [sen_offset Nat.add] in Hget.
  rewrite Hget by (simpl; lia).
  replace (touched three_docs 0 (word_list three_docs) 0) with true
    by reflexivity.
  unfold weight. simpl.
  replace (3 / 3) with 1 by lra. rewrite ln_1. lra.
Qed.

Lemma weight_zero_iff (data : DocProcess) (d : nat) (w : string) :
  (0 < count_in_doc data w d)%Z -> word_size data d <> 0%Z ->
  0 < IZR (Z.of_nat (doc_size data))
      / IZR (count_doc_containing_word data w + 1) ->
  weight data d w = 0
  <-> Z.of_nat (doc_size data) = (count_doc_containing_word data w + 1)%Z.
Proof.
  intros Hc Hw Hq. unfold weight.
  set (n := Z.of_nat (doc_size data)) in *.
  set (k := (count_doc_containing_word data w + 1)%Z) in *.
  assert (Hk : IZR k <> 0).
  { intros E. rewrite E in Hq. unfold Rdiv in Hq. rewrite Rinv_0 in Hq. lra. }
  assert (Htf : IZR (count_in_doc data w d) / IZR (word_size data d) <> 0).
  { unfold Rdiv. apply Rmult_integral_contrapositive. split.
    - apply not_0_IZR. lia.
    - apply Rinv_neq_0_compat, not_0_IZR. assumption. }
  split.
  - intros H. apply Rmult_integral in H as [H|H]; [contradiction|].
    rewrite <- ln_1 in H. apply ln_inv in H; [|assumption|lra].
    apply eq_IZR. apply (Rmult_eq_compat_r (IZR k)) in H.
    unfold Rdiv in H. rewrite Rmult_assoc, Rinv_l in H by assumption. lra.
  - intros ->. unfold Rdiv at 2. rewrite Rinv_r by assumption.
    rewrite ln_1. lra.
Qed.

(** C5, amended: on a duplicate-free vocabulary, entry (s, t) of a returned
    matrix is exactly 0 iff t's count in the document of s is not positive,
    or the number of documents equals the number of documents containing t
    plus one (the logarithm of line 94 is then 0). *)
Theorem matrix_entry_zero_iff (data : DocProcess) (m : matrix) (c : list R)
    (d s t : nat) (w : string) :
  tf_idf data = Ok (m, c) ->
  NoDup (word_list data) ->
  (d < doc_size data)%nat -> (s < sen_size data d)%nat ->
  nth_error (word_list data) t = Some w ->
  matrix_get m (sen_offset data d + s) t = 0
  <-> (count_in_doc data w d <= 0)%Z
      \/ Z.of_nat (doc_size data) = (count_doc_containing_word data w + 1)%Z.
Proof.
  intros Hm Hnd Hd Hs Ht.
  destruct (tf_idf_ok _ _ _ Hm) as (_ & Hget & Hdef & _).
  rewrite (Hget d s t Hd Hs), (touched_nodup data d t w Hnd Ht).
  rewrite (nth_error_nth _ _ EmptyString Ht).
  destruct (Z.gtb_spec (count_in_doc data w d) 0) as [Hpos|Hle].
  - destruct (Hdef d w) as (Hw & Hq); trivial; [lia | eapply nth_error_In; eassumption|].
    rewrite (weight_zero_iff data d w Hpos Hw Hq). split; [auto|].
    intros [H|H]; [lia | assumption].
  - split; [auto | reflexivity].
Qed.

Lemma matrix_entry_zero_iff_witness :
  exists m, tf_idf three_docs
            = Ok (m, map (long_sen_weight three_docs) (word_list three_docs))
    /\ (matrix_get m (sen_offset three_docs 1 + 0) 0 = 0
        <-> (count_in_doc three_docs "cat" 1 <= 0)%Z
            \/ Z.of_nat (doc_size three_docs)
               = (count_doc_containing_word three_docs "cat" + 1)%Z).
Proof.
  destruct (tf_idf_succeeds three_docs three_docs_ok) as [m Hm].
  exists m. split; [exact Hm|].
  apply (matrix_entry_zero_iff three_docs m _ 1 0 0 "cat" Hm).
  - repeat constructor; simpl; intuition discriminate.
  - simpl. lia.
  - simpl. lia.
  - reflexivity.
Defined.

(** C9: in a returned centroid the entry of every vocabulary word is its
    corpus-wide count over the corpus-wide word total, times [log(1/2)]. *)
Theorem centroid_entry (data : DocProcess) (m : matrix) (c : list R)
    (i : nat) (w : string) :
  tf_idf data = Ok (m, c) ->
  nth_error (word_list data) i = Some w ->
  nth_error c i
  = Some (IZR (count_total_in_doc data w) / IZR (word_size_total data)
          * ln (1 / 2)).
Proof.
  intros Hm Hi. destruct (tf_idf_ok _ _ _ Hm) as (_ & _ & _ & -> & _).
  apply (map_nth_error (long_sen_weight data) _ _ Hi).
Qed.

Lemma centroid_entry_witness :
  exists m c, tf_idf three_docs = Ok (m, c)
              /\ nth_error c 1 = Some (2 / 8 * ln (1 / 2)).
Proof.
  destruct (tf_idf_succeeds three_docs three_docs_ok) as [m Hm].
  exists m, (map (long_sen_weight three_docs) (word_list three_docs)).
  split; [exact Hm|].
  apply (centroid_entry three_docs m _ 1 "dog" Hm). reflexivity.
Defined.

Lemma summarize_tf_idf_err (data : DocProcess) (e : exn) :
  tf_idf data = Err e -> summarize data = Err e.
Proof. intros H. unfold summarize. rewrite H. reflexivity. Qed.

(** C7, as stated, fails: with a zero word total and an occurring word the
    computation ends in the raw ZeroDivisionError of line 92, in [tf_idf]
    and in its caller alike. *)
Lemma zero_total_doc_raw_zero_division :
  word_size zero_total_doc 0 = 0%Z
  /\ tf_idf zero_total_doc = Err ZeroDivisionError
  /\ summarize zero_total_doc = Err ZeroDivisionError.
Proof.
  assert (E : tf_idf zero_total_doc = Err ZeroDivisionError).
  { apply (tf_idf_zero_word_size zero_total_doc 0 "cat"
             (np_zeros 1 1, 0%nat)); simpl; try lia; auto. }
  split; [reflexivity|]. split; [exact E|].
  apply summarize_tf_idf_err, E.
Qed.

(** C7, amended: when the loops reach a document that has a sentence, a
    vocabulary word with a positive count and a word total of 0, the division
    of line 92 raises ZeroDivisionError, and that exception is what [tf_idf]
    and [summarize] end with. *)
Theorem tf_zero_word_total_raises_zero_division (data : DocProcess) (d : nat)
    (w : string) (st : matrix * nat) :
  (d < doc_size data)%nat -> (0 < sen_size data d)%nat ->
  In w (word_list data) -> (0 < count_in_doc data w d)%Z ->
  word_size data d = 0%Z ->
  foldM (doc_body data) (seq 0 d)
        (np_zeros (sen_size_total data) (List.length (word_list data)), 0%nat)
  = Ok st ->
  tf_idf data = Err ZeroDivisionError
  /\ summarize data = Err ZeroDivisionError.
Proof.
  intros Hd Hs Hin Hpos Hw Hpre.
  assert (E : tf_idf data = Err ZeroDivisionError)
    by (eapply tf_idf_zero_word_size; eassumption).
  split; [exact E | apply summarize_tf_idf_err, E].
Qed.

Lemma tf_zero_word_total_raises_zero_division_witness :
  tf_idf zero_total_doc = Err ZeroDivisionError
  /\ summarize zero_total_doc = Err ZeroDivisionError.
Proof.
  apply (tf_zero_word_total_raises_zero_division zero_total_doc 0 "cat"
           (np_zeros 1 1, 0%nat)).
  - simpl. lia.
  - simpl. lia.
  - simpl. auto.
  - simpl. lia.
  - reflexivity.
  - reflexivity.
Defined.

(** ** Ranking *)

Lemma rank_two_equal_rows :
  rank [[1]; [1]] [1] = Ok [(Num (cos 1), 1%nat); (Num (cos 1), 0%nat)].
Proof.
  assert (E : cos_similarity [1] [1] = Ok (Num (cos 1))).
  { apply cos_similarity_self. rewrite linalg_norm_unit. lra. }
  unfold rank. cbn [List.length seq foldM]. unfold sim_body.
  cbn [getitem nth_error bind]. rewrite E. cbn [bind app snd].
  unfold list_sort_reverse, list_sort.
  cbn [rev app fold_left insert_sorted].
  unfold tuple_lt. cbn [fst snd float_eq]. rewrite Reqb_refl. reflexivity.
Qed.

(** C2, as stated, fails: two rows with the same score come out with the
    larger sentence index first. *)
Lemma rank_tie_puts_larger_index_first :
  exists l, rank [[1]; [1]] [1] = Ok l
            /\ nth_error l 0 = Some (Num (cos 1), 1%nat)
            /\ nth_error l 1 = Some (Num (cos 1), 0%nat).
Proof. eexists. split; [apply rank_two_equal_rows|]. split; reflexivity. Qed.

(** C2, amended: when every score of the ranking is a number, the pairs are
    in descending order of score, and of two sentences with equal scores the
    one with the LARGER original index comes first. *)
Theorem rank_descending_ties_by_descending_index (m : matrix) (c : list R)
    (l : list (float64 * nat)) (i j : nat) (si sj : R) (ri rj : nat) :
  rank m c = Ok l ->
  Forall is_num l ->
  (i < j)%nat ->
  nth_error l i = Some (Num si, ri) ->
  nth_error l j = Some (Num sj, rj) ->
  sj <= si /\ (si = sj -> (rj < ri)%nat).
Proof.
  intros Hrank Hnum Hij Hi Hj.
  pose proof (rank_ok _ _ _ Hrank) as (Hperm & _).
  unfold rank in Hrank. apply bind_ok in Hrank as (l0 & _ & E).
  injection E as <-.
  assert (Hnum0 : Forall is_num l0)
    by (eapply Permutation_Forall; [apply list_sort_reverse_perm | assumption]).
  pose proof (list_sort_reverse_desc l0 Hnum0 i j _ _ Hij Hi Hj) as Hle.
  unfold tuple_le, score in Hle. simpl in Hle.
  assert (Hne : ri <> rj).
  { intros ->.
    assert (Hnd : NoDup (map snd (list_sort_reverse l0))).
    { eapply Permutation_NoDup; [symmetry; exact Hperm | apply seq_NoDup]. }
    rewrite NoDup_nth_error in Hnd.
    assert (i = j); [|lia].
    apply Hnd.
    - rewrite length_map. apply nth_error_Some. congruence.
    - rewrite (map_nth_error snd _ _ Hi), (map_nth_error snd _ _ Hj).
      reflexivity. }
  split; [lra|]. intros ->. destruct Hle as [Hlt|[_ Hle]]; [lra | lia].
Qed.

Lemma rank_descending_ties_by_descending_index_witness :
  cos 1 <= cos 1 /\ (cos 1 = cos 1 -> (0 < 1)%nat).
Proof.
  apply (rank_descending_ties_by_descending_index
           [[1]; [1]] [1] [(Num (cos 1), 1%nat); (Num (cos 1), 0%nat)]
           0 1 (cos 1) (cos 1) 1 0).
  - apply rank_two_equal_rows.
  - repeat constructor; eexists; reflexivity.
  - lia.
  - reflexivity.
  - reflexivity.
Defined.

(** ** [summarize] *)

(** C4, as stated, fails: with no document the ranking is empty and line 161
    subscripts it, so the call ends in IndexError instead of returning an
    empty list. *)
Lemma summarize_no_docs_index_error :
  sen_size_total no_docs = 0%nat
  /\ doc_size no_docs = 0%nat
  /\ summarize no_docs = Err IndexError.
Proof. repeat split. Qed.

(** C4, amended: on a corpus of zero sentences [summarize] returns no list;
    it ends in an exception, which is IndexError (line 161 on the empty
    ranking) unless [tf_idf] has raised before. *)
Theorem summarize_zero_sentences_raises (data : DocProcess) :
  sen_size_total data = 0%nat ->
  exists e, summarize data = Err e
            /\ (e = IndexError \/ tf_idf data = Err e).
Proof.
  intros H0. unfold summarize.
  destruct (tf_idf data) as [[m c]|e] eqn:E; cbn [bind].
  - destruct (tf_idf_ok _ _ _ E) as ([Hrows _] & _).
    rewrite H0 in Hrows. destruct m; [|discriminate].
    exists IndexError. split; [reflexivity | left; reflexivity].
  - exists e. auto.
Qed.

Lemma summarize_zero_sentences_raises_witness :
  exists e, summarize no_docs = Err e
            /\ (e = IndexError \/ tf_idf no_docs = Err e).
Proof. apply (summarize_zero_sentences_raises no_docs). reflexivity. Defined.

Lemma summarize_ok (data : DocProcess) (m : matrix) (c : list R)
    (sim_lst : list (float64 * nat)) (top : float64 * nat) (st' : sel_state) :
  tf_idf data = Ok (m, c) ->
  rank m c = Ok sim_lst ->
  getitem sim_lst 0 = Ok top ->
  select_loop data m sim_lst
    {| base_rank := 0; current_rank := 1;
       summary := [abstract data (snd top)];
       sum_size := String.length (abstract data (snd top)) |} = Ok st' ->
  summarize data = Ok (summary st').
Proof.
  intros Hm Hr Ht Hl. unfold summarize. rewrite Hm. cbn [bind].
  rewrite Hr. cbn [bind]. rewrite Ht. cbn [bind last].
  rewrite Hl. cbn [bind]. destruct st'; reflexivity.
Qed.

(** C8: in a run of [summarize] that reaches the selection loop, every round
    that goes on was entered below the budget of 665 and leaves the length no
    smaller, the summary unchanged or longer by the text whose length was
    added; a round entered with the budget met leaves the loop with nothing
    appended; and the loop does end, without an exception, with the budget
    met or the ranking exhausted, [summarize] returning the summary of that
    final state. *)
Theorem selection_budget_and_termination (data : DocProcess) (m : matrix)
    (c : list R) (sim_lst : list (float64 * nat)) (top : float64 * nat) :
  tf_idf data = Ok (m, c) ->
  rank m c = Ok sim_lst ->
  getitem sim_lst 0 = Ok top ->
  (forall st st',
      select_step data m sim_lst st = Ok (Next st') ->
      (sum_size st < 665)%nat /\ (sum_size st <= sum_size st')%nat
      /\ (summary st' = summary st
          \/ exists text, summary st' = summary st ++ [text]
                          /\ sum_size st'
                             = (sum_size st + String.length text)%nat))
  /\ (forall st, (665 <= sum_size st)%nat ->
                 select_step data m sim_lst st = Ok (Stop st)
                 /\ select_loop data m sim_lst st = Ok st)
  /\ exists st',
       select_loop data m sim_lst
         {| base_rank := 0; current_rank := 1;
            summary := [abstract data (snd top)];
            sum_size := String.length (abstract data (snd top)) |} = Ok st'
       /\ ((665 <= sum_size st')%nat
           \/ current_rank st' = List.length sim_lst)
       /\ (String.length (abstract data (snd top)) <= sum_size st')%nat
       /\ (exists more, summary st' = abstract data (snd top) :: more)
       /\ summarize data = Ok (summary st').
Proof.
  intros Hm Hr Ht. split; [|split].
  - intros st st' Hstep.
    apply select_step_next in Hstep as (_ & Hb & _ & [(_ & Hs & Hz)|(cur & _ & _ & Hs & Hz)]).
    + split; [assumption|]. split; [lia | left; assumption].
    + split; [assumption|]. split; [lia|]. right. eauto.
  - intros st Hb. pose proof (select_step_budget data m sim_lst st Hb) as E.
    split; [exact E|]. rewrite select_loop_step, E. reflexivity.
  - destruct (tf_idf_ok _ _ _ Hm) as (Hshape & _).
    pose proof (rank_ok _ _ _ Hr) as (Hperm & _).
    apply getitem_ok in Ht as Ht'. destruct Ht' as (Hlen & _).
    destruct (select_loop_terminates data m sim_lst _ _ Hshape) with
      (st := {| base_rank := 0; current_rank := 1;
                summary := [abstract data (snd top)];
                sum_size := String.length (abstract data (snd top)) |})
      as (st' & Hloop & Hend & Hmono & more & Hmore).
    + destruct Hshape as [Hrows _]. apply Forall_forall. intros p Hp.
      assert (Hin : In (snd p) (seq 0 (List.length m))).
      { eapply Permutation_in; [exact Hperm | apply in_map; assumption]. }
      apply in_seq in Hin. lia.
    + unfold sel_inv. cbn. lia.
    + exists st'. split; [assumption|]. split; [assumption|].
      split; [exact Hmono|]. split; [exists more; exact Hmore|].
      eapply summarize_ok; eassumption.
Qed.

Lemma selection_budget_and_termination_witness :
  exists s, summarize three_docs = Ok s /\ s <> [].
Proof.
  destruct (tf_idf_succeeds three_docs three_docs_ok) as [m Hm].
  destruct (tf_idf_ok _ _ _ Hm) as (Hshape & _).
  destruct (rank_succeeds m (map (long_sen_weight three_docs)
                               (word_list three_docs)) 3 Hshape)
    as [sim_lst Hr].
  pose proof (rank_length _ _ _ Hr) as Hlen.
  destruct Hshape as [Hrows _]. simpl in Hrows.
  destruct sim_lst as [|top rest]; [simpl in Hlen; congruence|].
  destruct (selection_budget_and_termination three_docs m _ (top :: rest) top
              Hm Hr eq_refl)
    as (_ & _ & st' & _ & _ & _ & (more & Hmore) & Hs).
  exists (summary st'). split; [exact Hs|].
  rewrite Hmore. discriminate.
Defined.

(** ** A consequence of the cosine taken twice *)

Lemma select_loop_keeps_summary (data : DocProcess) (m : matrix)
    (sim_lst : list (float64 * nat)) (st st' : sel_state) :
  select_loop data m sim_lst st = Ok st' -> summary st' = summary st.
Proof.
  remember (List.length sim_lst - current_rank st)%nat as n eqn:Hn.
  revert st Hn. induction n as [n IH] using lt_wf_ind. intros st Hn H.
  rewrite select_loop_step in H.
  destruct (select_step data m sim_lst st) as [[st1|st1]|e] eqn:E;
    [| |discriminate].
  - injection H as <-. apply select_step_stop in E as (-> & _). reflexivity.
  - rewrite <- (select_step_keeps_summary _ _ _ _ _ E).
    apply select_step_next in E as (Hlt & _ & Hcur & _).
    apply (IH (List.length sim_lst - current_rank st1)%nat); trivial. lia.
Qed.

(** Since every pairwise value is at least [cos 1 > 0.539] (or nan), no
    second sentence is ever accepted: a returned summary is the text of the
    top-ranked sentence alone. *)
Lemma summarize_returns_one_sentence (data : DocProcess) (s : list string) :
  summarize data = Ok s -> exists r, s = [abstract data r].
Proof.
  unfold summarize. intros H.
  apply bind_ok in H as ([m c] & _ & H).
  apply bind_ok in H as (sim_lst & _ & H).
  apply bind_ok in H as (top & _ & H).
  apply bind_ok in H as (st' & Hloop & H).
  apply select_loop_keeps_summary in Hloop. cbn in Hloop.
  destruct st' as [b k sm sz]. cbn in *. injection H as <-.
  exists (snd top). assumption.
Qed.

(** * Further properties *)

(** ** [cos_similarity] *)

(** X1: the comparison does not depend on the order of its two arguments,
    exception included. *)
Theorem cos_similarity_symmetric (u v : list R) :
  cos_similarity u v = cos_similarity v u.
Proof.
  unfold cos_similarity, ndarray_dot. rewrite Nat.eqb_sym.
  destruct (List.length v =? List.length u)%nat; [|reflexivity].
  cbn [bind]. rewrite dot_comm, (Rmult_comm (linalg_norm u)). reflexivity.
Qed.

(** X2: the only exception is the ValueError of [dot], raised exactly when
    the two arrays differ in length. *)
Theorem cos_similarity_raises_iff_lengths_differ (u v : list R) (e : exn) :
  cos_similarity u v = Err e
  <-> List.length u <> List.length v /\ e = ValueError.
Proof.
  unfold cos_similarity, ndarray_dot.
  destruct (Nat.eqb_spec (List.length u) (List.length v)) as [Heq|Hne];
    cbn [bind]; split.
  - discriminate.
  - intros [H _]. contradiction.
  - intros H. injection H as <-. auto.
  - intros [_ ->]. reflexivity.
Qed.

Lemma cos_similarity_raises_iff_lengths_differ_witness :
  cos_similarity [1] [1; 2] = Err ValueError.
Proof.
  apply (cos_similarity_raises_iff_lengths_differ [1] [1; 2] ValueError).
  split; [simpl; lia | reflexivity].
Defined.

(** X3: a returned value is nan or a number between [cos 1] and 1; it is
    never an infinity and never below the threshold 0.539 of [summarize]. *)
Theorem cos_similarity_never_below_threshold (u v : list R) (x : float64) :
  cos_similarity u v = Ok x ->
  (x = NaN \/ exists r, x = Num r /\ cos 1 <= r <= 1)
  /\ float_lt x (Num 0.539) = false.
Proof.
  intros H. pose proof (cos_similarity_value u v x H) as Hx.
  split; [exact Hx|].
  destruct Hx as [->|(r & -> & Hr & _)]; [reflexivity|].
  simpl. apply Rltb_nlt. pose proof cos_1_lower. lra.
Qed.

Lemma cos_similarity_never_below_threshold_witness :
  (Num (cos 1) = NaN \/ exists r, Num (cos 1) = Num r /\ cos 1 <= r <= 1)
  /\ float_lt (Num (cos 1)) (Num 0.539) = false.
Proof.
  apply (cos_similarity_never_below_threshold [1] [1]).
  apply cos_similarity_self. rewrite linalg_norm_unit. lra.
Defined.

(** X4: a vector of nonzero norm compared with itself gives [cos 1], whatever
    the vector. *)
Theorem cos_similarity_with_itself (v : list R) :
  linalg_norm v <> 0 -> cos_similarity v v = Ok (Num (cos 1)).
Proof. apply cos_similarity_self. Qed.

Lemma cos_similarity_with_itself_witness :
  cos_similarity [1] [1] = Ok (Num (cos 1)).
Proof.
  apply (cos_similarity_with_itself [1]). rewrite linalg_norm_unit. lra.
Defined.

(** ** The cache files *)

(** X5: what [write_for_test] stores is not what [read_for_test] loads. The
    matrix text comes back, but the vector is read from
    "long-sen-vector.cache", a file [write_for_test] never writes: the read
    raises FileNotFoundError unless such a file was there before, and then
    returns that older text. *)
Theorem read_after_write_for_test (matrix_text : matrix -> string)
    (vector_text : list R -> string) (m : matrix) (v : list R) (fs : files) :
  read_for_test (write_for_test matrix_text vector_text m v fs)
  = match fs "long-sen-vector.cache"%string with
    | Some old => inr (matrix_text m, old)
    | None => inl FileNotFoundError
    end.
Proof.
  unfold read_for_test, write_for_test, file_read, file_write. cbn.
  destruct (fs "long-sen-vector.cache"%string); reflexivity.
Qed.

(** ** [tf_idf] *)

Lemma skewed_docs_ok : corpus_ok skewed_docs.
Proof.
  split; [|split].
  - intros d Hd _ w _ _. split; [simpl; lia|].
    simpl. destruct (String.eqb w "cat"); [lia|].
    destruct (String.eqb w "dog"); lia.
  - simpl. lia.
  - right. simpl. lia.
Qed.

Lemma dup_docs_ok : corpus_ok dup_docs.
Proof.
  split; [|split].
  - intros d Hd _ w _ _. simpl. split; lia.
  - simpl. lia.
  - right. simpl. lia.
Qed.

Lemma three_words_nodup : NoDup ["cat"; "dog"; "mat"]%string.
Proof. repeat constructor; simpl; intuition discriminate. Qed.

Lemma tf_idf_rest_zero (data : DocProcess) (m : matrix) (c : list R)
    (i j : nat) :
  tf_idf data = Ok (m, c) ->
  (sen_offset data (doc_size data) <= i)%nat -> matrix_get m i j = 0.
Proof.
  unfold tf_idf. intros H Hi.
  apply bind_ok in H as ([m' g'] & Hdocs & H). simpl fst in H.
  apply bind_ok in H as (c' & _ & H). injection H as <- <-.
  destruct (doc_loop_get _ _ _ _ _ _ _ (np_zeros_shape _ _) Hdocs)
    as (_ & _ & _ & Hrest & _).
  rewrite (Hrest i j Hi). apply np_zeros_get.
Qed.

Lemma sen_offset_split (data : DocProcess) (k i : nat) :
  (i < sen_offset data k)%nat ->
  exists d s, (d < k)%nat /\ (s < sen_size data d)%nat
              /\ i = (sen_offset data d + s)%nat.
Proof.
  induction k as [|k IH]; simpl; intros H; [lia|].
  destruct (Nat.lt_ge_cases i (sen_offset data k)) as [Hlt|Hge].
  - destruct (IH Hlt) as (d & s & Hd & Hs & ->). exists d, s.
    repeat split; trivial; lia.
  - exists k, (i - sen_offset data k)%nat. repeat split; lia.
Qed.

Lemma list_index_first (w : string) (l : list string) (i k : nat) :
  list_index w l = Ok i -> (k < i)%nat -> nth_error l k <> Some w.
Proof.
  revert i k. induction l as [|x l IH]; intros i k H Hk; simpl in H;
    [discriminate|].
  destruct (String.eqb_spec x w) as [->|Hne].
  - injection H as <-. lia.
  - apply bind_ok in H as (i' & Hi' & H). injection H as <-.
    destruct k as [|k]; simpl.
    + intros E. injection E as ->. contradiction.
    + apply (IH i'); trivial. lia.
Qed.

(** X6: a returned matrix has [sen_size_total] rows of one column per
    vocabulary entry, and the centroid has one entry per vocabulary entry. *)
Theorem tf_idf_shapes (data : DocProcess) (m : matrix) (c : list R) :
  tf_idf data = Ok (m, c) ->
  List.length m = sen_size_total data
  /\ Forall (fun row => List.length row = List.length (word_list data)) m
  /\ List.length c = List.length (word_list data).
Proof.
  intros H. destruct (tf_idf_ok _ _ _ H) as ([Hrows Hcols] & _ & _ & -> & _).
  split; [assumption|]. split; [|apply length_map].
  apply Forall_forall. intros row Hrow.
  destruct (In_nth _ _ [] Hrow) as (i & Hi & <-). apply Hcols. lia.
Qed.

Lemma tf_idf_shapes_witness :
  exists m c, tf_idf skewed_docs = Ok (m, c)
              /\ List.length m = 4%nat
              /\ Forall (fun row => List.length row = 3%nat) m
              /\ List.length c = 3%nat.
Proof.
  destruct (tf_idf_succeeds skewed_docs skewed_docs_ok) as [m Hm].
  exists m, (map (long_sen_weight skewed_docs) (word_list skewed_docs)).
  split; [exact Hm|]. exact (tf_idf_shapes skewed_docs m _ Hm).
Defined.

(** X7: with a duplicate-free vocabulary, the entry of sentence [s] of
    document [d] for word [w] is (count of w in d / words of d) times
    log(documents / (documents containing w + 1)) when the count is
    positive, and 0 otherwise. *)
Theorem tf_idf_entry_value (data : DocProcess) (m : matrix) (c : list R)
    (d s t : nat) (w : string) :
  tf_idf data = Ok (m, c) ->
  NoDup (word_list data) ->
  (d < doc_size data)%nat -> (s < sen_size data d)%nat ->
  nth_error (word_list data) t = Some w ->
  matrix_get m (sen_offset data d + s) t
  = if (count_in_doc data w d >? 0)%Z
    then IZR (count_in_doc data w d) / IZR (word_size data d)
         * ln (IZR (Z.of_nat (doc_size data))
               / IZR (count_doc_containing_word data w + 1))
    else 0.
Proof.
  intros Hm Hnd Hd Hs Ht. destruct (tf_idf_ok _ _ _ Hm) as (_ & Hget & _).
  rewrite (Hget d s t Hd Hs), (touched_nodup data d t w Hnd Ht).
  rewrite (nth_error_nth _ _ EmptyString Ht). reflexivity.
Qed.

Lemma tf_idf_entry_value_witness :
  exists m c, tf_idf skewed_docs = Ok (m, c)
              /\ matrix_get m 1 1 = 1 / 2 * ln (3 / 2).
Proof.
  destruct (tf_idf_succeeds skewed_docs skewed_docs_ok) as [m Hm].
  exists m, (map (long_sen_weight skewed_docs) (word_list skewed_docs)).
  split; [exact Hm|].
  apply (tf_idf_entry_value skewed_docs m _ 0 1 1 "dog" Hm).
  - apply three_words_nodup.
  - simpl. lia.
  - simpl. lia.
  - reflexivity.
Defined.

(** X8: the row of a sentence depends on its document only: two sentences
    of one document have the same entries. *)
Theorem tf_idf_same_document_same_row (data : DocProcess) (m : matrix)
    (c : list R) (d s s' j : nat) :
  tf_idf data = Ok (m, c) ->
  (d < doc_size data)%nat ->
  (s < sen_size data d)%nat -> (s' < sen_size data d)%nat ->
  matrix_get m (sen_offset data d + s) j
  = matrix_get m (sen_offset data d + s') j.
Proof.
  intros Hm Hd Hs Hs'. destruct (tf_idf_ok _ _ _ Hm) as (_ & Hget & _).
  rewrite (Hget d s j Hd Hs), (Hget d s' j Hd Hs'). reflexivity.
Qed.

Lemma tf_idf_same_document_same_row_witness :
  exists m c, tf_idf skewed_docs = Ok (m, c)
              /\ matrix_get m 0 1 = matrix_get m 1 1.
Proof.
  destruct (tf_idf_succeeds skewed_docs skewed_docs_ok) as [m Hm].
  exists m, (map (long_sen_weight skewed_docs) (word_list skewed_docs)).
  split; [exact Hm|].
  apply (tf_idf_same_document_same_row skewed_docs m _ 0 0 1 1 Hm);
    simpl; lia.
Defined.

(** X9: rows from the sum of the documents' sentence counts onwards are
    never written: they keep the zeros of [np.zeros]. *)
Theorem tf_idf_rows_past_sentences_zero (data : DocProcess) (m : matrix)
    (c : list R) (i j : nat) :
  tf_idf data = Ok (m, c) ->
  (sen_offset data (doc_size data) <= i)%nat ->
  matrix_get m i j = 0.
Proof. apply tf_idf_rest_zero. Qed.

Lemma tf_idf_rows_past_sentences_zero_witness :
  exists m c, tf_idf dup_docs = Ok (m, c) /\ matrix_get m 1 0 = 0.
Proof.
  destruct (tf_idf_succeeds dup_docs dup_docs_ok) as [m Hm].
  exists m, (map (long_sen_weight dup_docs) (word_list dup_docs)).
  split; [exact Hm|].
  apply (tf_idf_rows_past_sentences_zero dup_docs m _ 1 0 Hm). simpl. lia.
Defined.

(** X10: when a word is listed twice in the vocabulary, the column of the
    later listing is zero in every row: [list.index] always finds the first
    listing. *)
Theorem tf_idf_duplicate_column_zero (data : DocProcess) (m : matrix)
    (c : list R) (k j i : nat) (w : string) :
  tf_idf data = Ok (m, c) ->
  (k < j)%nat ->
  nth_error (word_list data) k = Some w ->
  nth_error (word_list data) j = Some w ->
  matrix_get m i j = 0.
Proof.
  intros Hm Hkj Hk Hj.
  destruct (Nat.lt_ge_cases i (sen_offset data (doc_size data))) as [Hi|Hi];
    [|eapply tf_idf_rest_zero; eassumption].
  destruct (sen_offset_split data _ _ Hi) as (d & s & Hd & Hs & ->).
  destruct (tf_idf_ok _ _ _ Hm) as (_ & Hget & _).
  rewrite (Hget d s j Hd Hs).
  destruct (touched data d (word_list data) j) eqn:E; [|reflexivity].
  unfold touched in E. apply existsb_exists in E as (w' & _ & Hw').
  unfold writes in Hw'. apply andb_true_iff in Hw' as (_ & Hidx).
  destruct (list_index w' (word_list data)) as [j'|] eqn:Hj'; [|discriminate].
  apply Nat.eqb_eq in Hidx. subst j'.
  pose proof (list_index_ok _ _ _ Hj') as Hnth.
  assert (w' = w) by congruence. subst w'.
  exfalso. exact (list_index_first _ _ _ _ Hj' Hkj Hk).
Qed.

Lemma tf_idf_duplicate_column_zero_witness :
  exists m c, tf_idf dup_docs = Ok (m, c) /\ matrix_get m 0 1 = 0.
Proof.
  destruct (tf_idf_succeeds dup_docs dup_docs_ok) as [m Hm].
  exists m, (map (long_sen_weight dup_docs) (word_list dup_docs)).
  split; [exact Hm|].
  apply (tf_idf_duplicate_column_zero dup_docs m _ 0 1 0 "cat" Hm).
  - lia.
  - reflexivity.
  - reflexivity.
Defined.

Lemma ratio_pos_den (n k : Z) :
  (0 < n)%Z -> 0 < IZR n / IZR k -> (0 < k)%Z.
Proof.
  intros Hn Hq. apply IZR_lt in Hn.
  destruct (Z_lt_le_dec 0 k) as [Hk|Hk]; [assumption|]. exfalso.
  destruct (Z.eq_dec k 0) as [->|Hne].
  - unfold Rdiv in Hq. rewrite Rinv_0 in Hq. lra.
  - assert (Hneg : IZR k < 0) by (apply IZR_lt; lia).
    apply Rinv_lt_0_compat in Hneg. unfold Rdiv in Hq. nra.
Qed.

Lemma ln_half_neg : ln (1 / 2) < 0.
Proof. rewrite <- ln_1. apply ln_increasing; lra. Qed.

(** X11: when the corpus-wide counts are not negative and the corpus-wide
    word total is positive, no centroid entry is positive: each is a
    frequency times [log(1/2)]. *)
Theorem centroid_entries_nonpositive (data : DocProcess) (m : matrix)
    (c : list R) :
  tf_idf data = Ok (m, c) ->
  (forall w, In w (word_list data) -> (0 <= count_total_in_doc data w)%Z) ->
  (0 < word_size_total data)%Z ->
  Forall (fun x => x <= 0) c.
Proof.
  intros Hm Hcnt Hwst. destruct (tf_idf_ok _ _ _ Hm) as (_ & _ & _ & -> & _).
  apply Forall_forall. intros x Hx. apply in_map_iff in Hx as (w & <- & Hw).
  unfold long_sen_weight.
  assert (Ha : 0 <= IZR (count_total_in_doc data w)) by (apply IZR_le; auto).
  assert (Hb : 0 < IZR (word_size_total data)) by (apply IZR_lt; assumption).
  assert (Hf : 0 <= IZR (count_total_in_doc data w) / IZR (word_size_total data)).
  { unfold Rdiv. apply Rmult_le_pos; [assumption|].
    left. apply Rinv_0_lt_compat. assumption. }
  pose proof ln_half_neg. nra.
Qed.

Lemma centroid_entries_nonpositive_witness :
  exists m c, tf_idf skewed_docs = Ok (m, c) /\ Forall (fun x => x <= 0) c.
Proof.
  destruct (tf_idf_succeeds skewed_docs skewed_docs_ok) as [m Hm].
  exists m, (map (long_sen_weight skewed_docs) (word_list skewed_docs)).
  split; [exact Hm|].
  apply (centroid_entries_nonpositive skewed_docs m _ Hm).
  - intros w _. simpl. destruct (String.eqb w "cat"); [lia|].
    destruct (String.eqb w "dog"); lia.
  - simpl. lia.
Defined.

(** X12: with a duplicate-free vocabulary and a positive word total of the
    document, the entry of an occurring word is negative when the word is in
    every document (documents containing it + 1 exceeds the number of
    documents) and positive when it is in fewer than all but one. *)
Theorem tf_idf_entry_sign (data : DocProcess) (m : matrix) (c : list R)
    (d s t : nat) (w : string) :
  tf_idf data = Ok (m, c) ->
  NoDup (word_list data) ->
  (d < doc_size data)%nat -> (s < sen_size data d)%nat ->
  nth_error (word_list data) t = Some w ->
  (0 < count_in_doc data w d)%Z -> (0 < word_size data d)%Z ->
  ((Z.of_nat (doc_size data) < count_doc_containing_word data w + 1)%Z ->
   matrix_get m (sen_offset data d + s) t < 0)
  /\ ((count_doc_containing_word data w + 1 < Z.of_nat (doc_size data))%Z ->
      0 < matrix_get m (sen_offset data d + s) t).
Proof.
  intros Hm Hnd Hd Hs Ht Hc Hw.
  destruct (tf_idf_ok _ _ _ Hm) as (_ & Hget & Hdef & _).
  rewrite (Hget d s t Hd Hs), (touched_nodup data d t w Hnd Ht).
  rewrite (nth_error_nth _ _ EmptyString Ht).
  destruct (Z.gtb_spec (count_in_doc data w d) 0) as [_|]; [|lia].
  destruct (Hdef d w) as (_ & Hq); trivial;
    [lia | eapply nth_error_In; eassumption|].
  unfold weight.
  set (n := Z.of_nat (doc_size data)) in *.
  set (k := (count_doc_containing_word data w + 1)%Z) in *.
  assert (Hn : (0 < n)%Z) by (unfold n; lia).
  pose proof (ratio_pos_den n k Hn Hq) as Hk.
  assert (Hn' : 0 < IZR n) by (apply IZR_lt; assumption).
  assert (Hk' : 0 < IZR k) by (apply IZR_lt; assumption).
  assert (Htf : 0 < IZR (count_in_doc data w d) / IZR (word_size data d)).
  { apply Rdiv_lt_0_compat; apply IZR_lt; assumption. }
  split; intros Hnk; apply IZR_lt in Hnk.
  - assert (Hlt : IZR n / IZR k < 1).
    { apply Rmult_lt_reg_r with (IZR k); [assumption|].
      unfold Rdiv. rewrite Rmult_assoc, Rinv_l by lra. lra. }
    pose proof (ln_increasing _ _ Hq Hlt) as Hln. rewrite ln_1 in Hln. nra.
  - assert (Hgt : 1 < IZR n / IZR k).
    { apply Rmult_lt_reg_r with (IZR k); [assumption|].
      unfold Rdiv. rewrite Rmult_assoc, Rinv_l by lra. lra. }
    assert (H1 : 0 < 1) by lra.
    pose proof (ln_increasing _ _ H1 Hgt) as Hln. rewrite ln_1 in Hln. nra.
Qed.

Lemma tf_idf_entry_sign_witness :
  exists m c, tf_idf skewed_docs = Ok (m, c) /\ matrix_get m 2 0 < 0.
Proof.
  destruct (tf_idf_succeeds skewed_docs skewed_docs_ok) as [m Hm].
  exists m, (map (long_sen_weight skewed_docs) (word_list skewed_docs)).
  split; [exact Hm|].
  apply (tf_idf_entry_sign skewed_docs m _ 1 0 0 "cat" Hm).
  - apply three_words_nodup.
  - simpl. lia.
  - simpl. lia.
  - reflexivity.
  - simpl. lia.
  - simpl. lia.
  - simpl. lia.
Defined.

(** X13: when the matrix has a row for every sentence of the documents,
    [tf_idf] returns exactly when (1) in every document with a sentence,
    each vocabulary word that occurs there has a nonzero document word
    total and a positive (documents containing it + 1), and (2) the
    vocabulary is empty or the corpus-wide word total is nonzero. *)
Theorem tf_idf_returns_iff (data : DocProcess) :
  (sen_offset data (doc_size data) <= sen_size_total data)%nat ->
  (exists m c, tf_idf data = Ok (m, c))
  <-> (forall d, (d < doc_size data)%nat -> (0 < sen_size data d)%nat ->
                 doc_computable data d)
      /\ (word_list data = [] \/ word_size_total data <> 0%Z).
Proof.
  intros Hrows. split.
  - intros (m & c & Hm).
    destruct (tf_idf_ok _ _ _ Hm) as (_ & _ & Hdef & _ & Hwst).
    split; [|assumption]. intros d Hd Hs w Hin Hpos.
    destruct (Hdef d w Hd Hs Hin Hpos) as (Hw & Hq). split; [assumption|].
    apply (ratio_pos_den (Z.of_nat (doc_size data))); [lia | assumption].
  - intros (Hcomp & Hwst).
    destruct (tf_idf_succeeds data) as [m Hm];
      [split; [assumption | split; assumption]|].
    eauto.
Qed.

Lemma tf_idf_returns_iff_witness :
  exists m c, tf_idf skewed_docs = Ok (m, c).
Proof.
  apply (tf_idf_returns_iff skewed_docs).
  - simpl. lia.
  - destruct skewed_docs_ok as (H1 & _ & H3). split; assumption.
Defined.

(** ** Ranking and [summarize] *)

(** X14: on what [tf_idf] returns the ranking raises nothing; it lists every
    sentence index exactly once, each paired with the value [cos_similarity]
    gives for that sentence's row and the centroid. *)
Theorem rank_of_tf_idf (data : DocProcess) (m : matrix) (c : list R) :
  tf_idf data = Ok (m, c) ->
  exists l, rank m c = Ok l
            /\ Permutation (map snd l) (seq 0 (sen_size_total data))
            /\ Forall (fun p => exists row,
                           nth_error m (snd p) = Some row
                           /\ cos_similarity row c = Ok (fst p)) l.
Proof.
  intros Hm. destruct (tf_idf_ok _ _ _ Hm) as (Hshape & _ & _ & Hc & _).
  assert (Hlen : List.length c = List.length (word_list data))
    by (rewrite Hc; apply length_map).
  rewrite <- Hlen in Hshape.
  destruct (rank_succeeds m c _ Hshape) as [l Hl]. exists l.
  split; [assumption|]. destruct (rank_ok _ _ _ Hl) as (Hperm & Hsc).
  destruct Hshape as [Hrows _]. rewrite Hrows in Hperm.
  split; [assumption|].
  eapply Forall_impl; [|exact Hsc]. intros p (row & Hrow & Hcos).
  exists row. split; [|assumption].
  unfold getitem in Hrow.
  destruct (nth_error m (snd p)); [congruence | discriminate].
Qed.

Lemma rank_of_tf_idf_witness :
  exists m c l, tf_idf skewed_docs = Ok (m, c) /\ rank m c = Ok l
                /\ Permutation (map snd l) [0; 1; 2; 3]%nat.
Proof.
  destruct (tf_idf_succeeds skewed_docs skewed_docs_ok) as [m Hm].
  destruct (rank_of_tf_idf skewed_docs m _ Hm) as (l & Hl & Hperm & _).
  exists m, (map (long_sen_weight skewed_docs) (word_list skewed_docs)), l.
  split; [exact Hm|]. split; [exact Hl | exact Hperm].
Defined.

(** X15: whenever [summarize] returns, the summary is a single text, that
    of one sentence of the matrix: the redundancy test never lets a second
    sentence in. *)
Theorem summarize_is_one_sentence (data : DocProcess) (s : list string) :
  summarize data = Ok s ->
  exists r, (r < sen_size_total data)%nat /\ s = [abstract data r].
Proof.
  unfold summarize. intros H.
  apply bind_ok in H as ([m c] & Hm & H).
  apply bind_ok in H as (sim_lst & Hr & H).
  apply bind_ok in H as (top & Ht & H).
  apply bind_ok in H as (st' & Hloop & H).
  apply select_loop_keeps_summary in Hloop. cbn in Hloop.
  destruct st' as [b k sm sz]. cbn in *. injection H as <-.
  exists (snd top). split; [|assumption].
  destruct (tf_idf_ok _ _ _ Hm) as ([Hrows _] & _).
  destruct (rank_ok _ _ _ Hr) as (Hperm & _).
  unfold getitem in Ht. destruct sim_lst as [|p rest]; [discriminate|].
  simpl in Ht. injection Ht as ->.
  assert (Hin : In (snd top) (seq 0 (List.length m))).
  { eapply Permutation_in; [exact Hperm | left; reflexivity]. }
  apply in_seq in Hin. lia.
Qed.

Lemma summarize_succeeds (data : DocProcess) :
  corpus_ok data -> (0 < sen_size_total data)%nat ->
  exists r, (r < sen_size_total data)%nat
            /\ summarize data = Ok [abstract data r].
Proof.
  intros Hok Hpos. destruct (tf_idf_succeeds data Hok) as [m Hm].
  destruct (tf_idf_ok _ _ _ Hm) as (Hshape & _).
  pose proof Hshape as Hshape'. rewrite <- (length_map (long_sen_weight data)) in Hshape'.
  destruct (rank_succeeds m _ _ Hshape') as [sim_lst Hr].
  pose proof (rank_length _ _ _ Hr) as Hlen.
  destruct (rank_ok _ _ _ Hr) as (Hperm & _).
  pose proof Hshape as [Hrows _].
  destruct sim_lst as [|top rest]; [simpl in Hlen; lia|].
  assert (Hidx : Forall (fun p => (snd p < sen_size_total data)%nat) (top :: rest)).
  { apply Forall_forall. intros p Hp.
    assert (Hin : In (snd p) (seq 0 (List.length m))).
    { eapply Permutation_in; [exact Hperm | apply in_map; assumption]. }
    apply in_seq in Hin. lia. }
  destruct (select_loop_terminates data m (top :: rest) _ _ Hshape Hidx) with
    (st := {| base_rank := 0; current_rank := 1;
              summary := [abstract data (snd top)];
              sum_size := String.length (abstract data (snd top)) |})
    as (st' & Hloop & _); [unfold sel_inv; cbn; lia|].
  exists (snd top). split; [inversion Hidx; assumption|].
  pose proof (select_loop_keeps_summary _ _ _ _ _ Hloop) as Hkeep.
  cbn in Hkeep. rewrite <- Hkeep.
  apply (summarize_ok data m _ (top :: rest) top st' Hm Hr eq_refl Hloop).
Qed.

(** X16: on a corpus on which [tf_idf] raises nothing (the three conditions
    of [corpus_ok]) and whose matrix has at least one row, [summarize]
    raises nothing and returns the text of one sentence. *)
Theorem summarize_returns_on_ok_corpus (data : DocProcess) :
  corpus_ok data -> (0 < sen_size_total data)%nat ->
  exists r, (r < sen_size_total data)%nat
            /\ summarize data = Ok [abstract data r].
Proof. apply summarize_succeeds. Qed.

Lemma summarize_returns_on_ok_corpus_witness :
  exists r, (r < 4)%nat /\ summarize skewed_docs = Ok [abstract skewed_docs r].
Proof.
  apply (summarize_returns_on_ok_corpus skewed_docs).
  - apply skewed_docs_ok.
  - simpl. lia.
Defined.

Lemma summarize_is_one_sentence_witness :
  exists s r, summarize skewed_docs = Ok s
              /\ (r < sen_size_total skewed_docs)%nat
              /\ s = [abstract skewed_docs r].
Proof.
  destruct (summarize_succeeds skewed_docs skewed_docs_ok)
    as (r0 & _ & Hs); [simpl; lia|].
  destruct (summarize_is_one_sentence skewed_docs _ Hs) as (r & Hr & E).
  exists [abstract skewed_docs r0], r. split; [exact Hs|].
  split; [exact Hr | exact E].
Defined.




(** X18: when the matrix loops raise nothing (enough rows, and lines 92-95
    defined wherever a word occurs) but the vocabulary is not empty and the
    corpus-wide word total is 0, the centroid loop divides by zero at line
    110: [tf_idf] and [summarize] end in ZeroDivisionError. *)
Theorem tf_idf_zero_corpus_total_raises (data : DocProcess) :
  (sen_offset data (doc_size data) <= sen_size_total data)%nat ->
  (forall d, (d < doc_size data)%nat -> (0 < sen_size data d)%nat ->
             doc_computable data d) ->
  word_list data <> [] ->
  word_size_total data = 0%Z ->
  tf_idf data = Err ZeroDivisionError
  /\ summarize data = Err ZeroDivisionError.
Proof.
  intros Hrows Hcomp Hwl Hwst.
  assert (E : tf_idf data = Err ZeroDivisionError).
  { unfold tf_idf.
    destruct (doc_loop_succeeds data (sen_size_total data) (doc_size data)
                (np_zeros (sen_size_total data) (List.length (word_list data))))
      as (m & Hm & _); trivial; [apply np_zeros_shape|].
    rewrite Hm. cbn [bind fst].
    destruct (word_list data) as [|w ws]; [contradiction Hwl; reflexivity|].
    rewrite long_sen_loop_zero by assumption. reflexivity. }
  split; [exact E | apply summarize_tf_idf_err, E].
Qed.

Lemma tf_idf_zero_corpus_total_raises_witness :
  tf_idf wordless_doc = Err ZeroDivisionError
  /\ summarize wordless_doc = Err ZeroDivisionError.
Proof.
  apply (tf_idf_zero_corpus_total_raises wordless_doc).
  - simpl. lia.
  - intros d _ _ w _ Hpos. simpl in Hpos. lia.
  - discriminate.
  - reflexivity.
Defined.
